(** * Synqra: one query AST, two compilers

    A shallow embedding of the query core of Synqra: the query AST
    ([core/query.ts]), the fluent builder ([query/builder.ts]), the
    capability validator ([core/planner.ts]), the relational compiler and
    migration planner ([adapters/postgres.ts]), the document compiler and
    migration planner ([adapters/mongo.ts]) and the router
    ([synqra.ts]). *)

From Stdlib Require Import List String Ascii ZArith Lia Bool Arith.
From Stdlib Require Import DecimalString.
Import ListNotations.
Open Scope string_scope.

Set Implicit Arguments.
Set Warnings "-register-all".

(** ** JavaScript values and helpers *)

(** The [any] of the source: JSON-like values.  A number is an integer;
    an object lists its keys in JavaScript's order and holds each key
    once. *)
Inductive value : Type :=
| VNull
| VBool (b : bool)
| VNum (z : Z)
| VStr (s : string)
| VArr (items : list value)
| VObj (entries : list (string * value)).

(** [Array.isArray] *)
Definition isArray (v : value) : bool :=
  match v with VArr _ => true | _ => false end.

(** An array index: the canonical decimal form of an integer from 0 to
    2^32 - 2.  JavaScript lists the keys of an object that are array
    indices first, in ascending order, and the other keys after them in
    the order of their creation. *)
Definition array_index (k : string) : option N :=
  match NilEmpty.uint_of_string k with
  | Some d =>
      let n := N.of_uint d in
      if String.eqb (NilZero.string_of_uint (N.to_uint n)) k && (n <? 2 ^ 32 - 1)%N
      then Some n
      else None
  | None => None
  end.

Section Objects.
Variable A : Type.

(** [o[k]], on the own properties of [o]. *)
Fixpoint obj_get (o : list (string * A)) (k : string) : option A :=
  match o with
  | [] => None
  | (k', v) :: rest => if String.eqb k' k then Some v else obj_get rest k
  end.

(** The new value of an existing key takes the place of the old one. *)
Fixpoint obj_replace (o : list (string * A)) (k : string) (v : A)
  : list (string * A) :=
  match o with
  | [] => []
  | (k', v') :: rest =>
      if String.eqb k' k then (k', v) :: rest else (k', v') :: obj_replace rest k v
  end.

(** A new array index goes among the array indices, before the first key
    that is a larger index or no index at all. *)
Fixpoint obj_insert_index (o : list (string * A)) (n : N) (k : string) (v : A)
  : list (string * A) :=
  match o with
  | [] => [(k, v)]
  | (k', v') :: rest =>
      match array_index k' with
      | Some n' =>
          if (n' <? n)%N then (k', v') :: obj_insert_index rest n k v
          else (k, v) :: o
      | None => (k, v) :: o
      end
  end.

(** [obj[k] = v]: overwrite in place when the key exists; otherwise a new
    array index is put in its place among the indices and any other key is
    appended. *)
Definition obj_set (o : list (string * A)) (k : string) (v : A)
  : list (string * A) :=
  match obj_get o k with
  | Some _ => obj_replace o k v
  | None =>
      match array_index k with
      | Some n => obj_insert_index o n k v
      | None => (o ++ [(k, v)])%list
      end
  end.

(** [Object.fromEntries] and object literals with computed keys. *)
Definition fromEntries (es : list (string * A)) : list (string * A) :=
  fold_left (fun o e => obj_set o (fst e) (snd e)) es [].

End Objects.

(** [Object.keys] *)
Definition keys (v : value) : list string :=
  match v with
  | VObj es => map fst es
  | _ => []
  end.

(** [Array.prototype.join] on strings. *)
Fixpoint join (sep : string) (xs : list string) : string :=
  match xs with
  | [] => EmptyString
  | [x] => x
  | x :: rest => x ++ sep ++ join sep rest
  end.

(** Decimal rendering of a length or an index inside a template literal. *)
Definition show_nat (n : nat) : string := NilEmpty.string_of_uint (Nat.to_uint n).

(** *** Numbers

    A JavaScript number is a double.  The integers of magnitude up to 2^53
    are all doubles; beyond, an integer stands for the double nearest to it
    (ties to the even significand), as a numeric literal does, and a
    magnitude of 2^1024 or more stands for an infinity.  Fractions and the
    not-a-number value have no counterpart here. *)

(** [a / d] rounded to the nearest integer, ties to even ([0 <= a],
    [0 < d]). *)
Definition div_nearest_even (a d : Z) : Z :=
  let q := (a / d)%Z in
  let r := (a mod d)%Z in
  if (2 * r <? d)%Z then q
  else if (d <? 2 * r)%Z then (q + 1)%Z
  else if Z.even q then q else (q + 1)%Z.

(** The double nearest to an integer: 53 significant bits are kept. *)
Definition nearest_double (z : Z) : Z :=
  let a := Z.abs z in
  if (a <? 2 ^ 53)%Z then z
  else
    let ulp := (2 ^ (Z.log2 a - 52))%Z in
    (Z.sgn z * (div_nearest_even a ulp * ulp))%Z.

Definition is_infinite (z : Z) : bool := (2 ^ 1024 <=? Z.abs z)%Z.

(** A finite number: its double is no infinity. *)
Definition finite_number (z : Z) : Prop := is_infinite (nearest_double z) = false.

(** [a - b] and [a * b] on finite numbers: the exact result for the doubles
    of [a] and [b], rounded. *)
Definition number_sub (a b : Z) : Z :=
  nearest_double (nearest_double a - nearest_double b).
Definition number_mul (a b : Z) : Z :=
  nearest_double (nearest_double a * nearest_double b).

Definition decimal (a : Z) : string := NilZero.string_of_uint (N.to_uint (Z.to_N a)).

(** Of the two multiples of [p] around [v], the one that reads back as
    [v]; the closer one when both do, the even multiple on a tie. *)
Definition closest_reading (v p : Z) : option Z :=
  let lo := (v / p * p)%Z in
  let hi := (lo + p)%Z in
  match (nearest_double lo =? v)%Z, (nearest_double hi =? v)%Z with
  | true, true =>
      if (v - lo <? hi - v)%Z then Some lo
      else if (hi - v <? v - lo)%Z then Some hi
      else if Z.even (lo / p) then Some lo else Some hi
  | true, false => Some lo
  | false, true => Some hi
  | false, false => None
  end.

(** The decimal with the fewest significant digits that reads back as the
    double [v]: one digit is tried first, then two, and so on. *)
Fixpoint shortest_from (fuel : nat) (v p : Z) : Z :=
  match fuel with
  | O => v
  | S fuel' =>
      match closest_reading v p with
      | Some c => c
      | None => shortest_from fuel' v (p / 10)%Z
      end
  end.

Definition shortest_decimal (v : Z) : Z :=
  let n := String.length (decimal v) in
  shortest_from n v (10 ^ (Z.of_nat n - 1))%Z.

Fixpoint drop_zeros (cs : list ascii) : list ascii :=
  match cs with
  | c :: rest => if Ascii.eqb c "0"%char then drop_zeros rest else cs
  | [] => []
  end.

(** The digits of a decimal without its trailing zeros. *)
Definition significant (s : string) : string :=
  string_of_list_ascii (rev (drop_zeros (rev (list_ascii_of_string s)))).

(** [d.ddde+n], the form of a number of more than 21 digits. *)
Definition exponent_form (c : Z) : string :=
  let ds := decimal c in
  match significant ds with
  | String d EmptyString => String d EmptyString
  | String d rest => String d ("." ++ rest)
  | EmptyString => EmptyString
  end ++ "e+" ++ show_nat (String.length ds - 1).

Definition magnitude_text (a : Z) : string :=
  let v := nearest_double a in
  if is_infinite v then "Infinity"
  else
    let c := shortest_decimal v in
    if (c <? 10 ^ 21)%Z then decimal c else exponent_form c.

(** A number inside a template literal ([Number::toString]): all the
    digits up to 21 of them, the exponent form from 10^21 on. *)
Definition show_Z (z : Z) : string :=
  if (z <? 0)%Z then "-" ++ magnitude_text (Z.abs z) else magnitude_text z.

(** [String.prototype.toUpperCase], on ASCII letters. *)
Definition upper_ascii (c : ascii) : ascii :=
  let n := nat_of_ascii c in
  if (97 <=? n)%nat && (n <=? 122)%nat then ascii_of_nat (n - 32) else c.

Fixpoint toUpperCase (s : string) : string :=
  match s with
  | EmptyString => EmptyString
  | String c rest => String (upper_ascii c) (toUpperCase rest)
  end.

(** ** The query AST ([core/query.ts]) *)

Inductive Operator : Type := op_eq | op_gt | op_lt | op_gte | op_lte | op_in.

Record Condition : Type := mkCondition {
  field : string;
  operator : Operator;
  cvalue : value
}.

Inductive LogicalType : Type := AND | OR.

(** [LogicalCondition = Condition | LogicalGroup]; a group carries its
    connective and its children. *)
Inductive LogicalCondition : Type :=
| Cond (c : Condition)
| Group (gtype : LogicalType) (gconditions : list LogicalCondition).

Record LogicalGroup : Type := mkGroup {
  ltype : LogicalType;
  lconditions : list LogicalCondition
}.

Inductive AggFunction : Type := f_count | f_sum | f_avg | f_min | f_max.

Record AggregationOp : Type := mkAgg {
  function : AggFunction;
  afield : string;
  alias : option string
}.

Inductive Direction : Type := asc | desc.

Record OrderBy : Type := mkOrderBy {
  ofield : string;
  direction : Direction
}.

Inductive QueryType : Type := q_select | q_insert | q_update | q_delete.

Inductive Intent : Type := i_read | i_write | i_aggregate.

Record QueryAST : Type := mkQuery {
  type : QueryType;
  table : string;
  conditions : option (list Condition);
  logical : option (list LogicalGroup);
  groupBy : option (list string);
  aggregations : option (list AggregationOp);
  data : option (list (string * value));
  limit : option Z;
  offset : option Z;
  orderBy : option OrderBy;
  select : option (list string);
  intent : option Intent
}.

Definition LogicalType_name (t : LogicalType) : string :=
  match t with AND => "AND" | OR => "OR" end.

Definition AggFunction_name (f : AggFunction) : string :=
  match f with
  | f_count => "count" | f_sum => "sum" | f_avg => "avg"
  | f_min => "min" | f_max => "max"
  end.

Definition Direction_name (d : Direction) : string :=
  match d with asc => "asc" | desc => "desc" end.

(** Truthiness of an optional string ([if (agg.alias)], [agg.alias || ...]):
    [undefined] and the empty string are falsy. *)
Definition truthy_string (s : option string) : option string :=
  match s with
  | Some EmptyString => None
  | other => other
  end.

(** A query with nothing but a kind and a table. *)
Definition blank (t : QueryType) (tbl : string) : QueryAST :=
  mkQuery t tbl None None None None None None None None None None.

(** ** Errors and results *)

Inductive Error : Type :=
| CapabilityError (message : string)
| TypeError (message : string)
| BackendError (message : string).

Inductive result (A : Type) : Type :=
| Ok (a : A)
| Throw (e : Error).
Arguments Ok {A} a.
Arguments Throw {A} e.

(** ** Capabilities and plans ([core/adapter.ts]) *)

Record AdapterCapabilities : Type := mkCapabilities {
  supportsTransactions : bool;
  supportsAggregation : bool;
  supportsJoins : bool;
  supportsSchemaSync : bool
}.

Inductive PlanType : Type := plan_sql | plan_mongo_pipeline | plan_mongo_query.

Record QueryPlan : Type := mkPlan {
  plan_type : PlanType;
  plan_query : option string;
  plan_values : option (list value);
  plan_filter : option value;
  plan_pipeline : option (list value);
  plan_options : option (list (string * value));
  plan_data : option (list (string * value))
}.

(** ** Logical schemas ([core/schema.ts]) and migration plans *)

(** A field is declared by a type name or by an object with a [type]. *)
Inductive FieldDef : Type :=
| FieldType (t : string)
| FieldSpec (t : string) (default : option value) (required : option bool).

Record ModelSchema : Type := mkModel {
  schema_name : string;
  schema_table : string;
  schema_fields : list (string * FieldDef)
}.

Inductive MigrationType : Type := mig_sql | mig_mongo.

Record MigrationPlan (Op : Type) : Type := mkMigration {
  mig_type : MigrationType;
  operations : list Op;
  logs : list string
}.

(** [typeof def === "string" ? def : def.type] *)
Definition fieldTypeOf (def : FieldDef) : string :=
  match def with
  | FieldType t => t
  | FieldSpec t _ _ => t
  end.

(** What a [sync()] run leaves behind: the backend after the run, the lines
    written to the console and how the call ended. *)
Record SyncRun (DB : Type) : Type := mkSyncRun {
  db_after : DB;
  console : list string;
  outcome : result unit
}.

Definition dquote : string := String (ascii_of_nat 34) EmptyString.

(** ** Statement text

    The relational compiler builds its text with template literals.  The
    text is kept here as the sequence of its pieces, a placeholder [$n]
    being one piece, and [render] concatenates them into the string. *)

Inductive piece : Type :=
| Txt (s : string)
| Ph (n : nat).

Definition text : Type := list piece.

Definition render_piece (p : piece) : string :=
  match p with
  | Txt s => s
  | Ph n => "$" ++ show_nat n
  end.

Definition render (t : text) : string :=
  fold_right (fun p acc => render_piece p ++ acc) EmptyString t.

(** [clauses.join(sep)] on texts. *)
Fixpoint joinT (sep : text) (xs : list text) : text :=
  match xs with
  | [] => []
  | [x] => x
  | x :: rest => (x ++ sep ++ joinT sep rest)%list
  end.

(** The placeholder numbers of a text, left to right. *)
Fixpoint placeholders (t : text) : list nat :=
  match t with
  | [] => []
  | Txt _ :: rest => placeholders rest
  | Ph n :: rest => n :: placeholders rest
  end.

(** A loop (or [Array.prototype.map]) whose body compiles one element and
    pushes onto the shared [values] array. *)
Definition map_values (A : Type) (f : A -> list value -> text * list value)
  : list A -> list value -> list text * list value :=
  fix go (xs : list A) (values : list value) : list text * list value :=
    match xs with
    | [] => ([], values)
    | x :: rest =>
        let '(t, values1) := f x values in
        let '(ts, values2) := go rest values1 in
        (t :: ts, values2)
    end.

(** [keys.map((k, i) => ...)] *)
Fixpoint mapi_from (A B : Type) (i : nat) (f : A -> nat -> B) (xs : list A) : list B :=
  match xs with
  | [] => []
  | x :: rest => f x i :: mapi_from (S i) f rest
  end.

(** ** The relational compiler ([adapters/postgres.ts]) *)

Module PostgresAdapter.

Definition capabilities : AdapterCapabilities :=
  mkCapabilities true true true true.

Definition mapOperator (op : Operator) : string :=
  match op with
  | op_eq => "="
  | op_gt => ">"
  | op_lt => "<"
  | op_gte => ">="
  | op_lte => "<="
  | op_in => "IN"
  end.

(** [c.value.map(v => { values.push(v); return `$${values.length}` })] *)
Definition push_placeholder (v : value) (values : list value) : text * list value :=
  let values := (values ++ [v])%list in
  ([Ph (List.length values)], values).

Definition buildCondition (c : Condition) (values : list value) : text * list value :=
  match operator c, cvalue c with
  | op_in, VArr [] => ([Txt "1=0"], values)
  | op_in, VArr items =>
      let '(placeholders, values) := map_values push_placeholder items values in
      (([Txt (field c); Txt " IN ("] ++ joinT [Txt ", "] placeholders ++ [Txt ")"])%list,
       values)
  | op, v =>
      let values := (values ++ [v])%list in
      ([Txt (field c); Txt " "; Txt (mapOperator op); Txt " "; Ph (List.length values)],
       values)
  end.

(** [buildLogicalGroup] on a group node; a flat child goes to
    [buildCondition]. *)
Fixpoint buildLogicalCondition (c : LogicalCondition) (values : list value)
  : text * list value :=
  match c with
  | Cond c0 => buildCondition c0 values
  | Group _ [] => ([Txt "1=1"], values)
  | Group ty children =>
      let '(clauses, values) := map_values buildLogicalCondition children values in
      (([Txt "("] ++ joinT [Txt (" " ++ LogicalType_name ty ++ " ")] clauses
          ++ [Txt ")"])%list,
       values)
  end.

Definition buildLogicalGroup (group : LogicalGroup) (values : list value)
  : text * list value :=
  buildLogicalCondition (Group (ltype group) (lconditions group)) values.

Definition buildWhere (query : QueryAST) (values : list value) : text * list value :=
  let clauses : list text := [] in
  let '(clauses, values) :=
    match conditions query with
    | Some cs =>
        let '(ts, values) := map_values buildCondition cs values in
        ((clauses ++ ts)%list, values)
    | None => (clauses, values)
    end in
  let '(clauses, values) :=
    match logical query with
    | Some groups =>
        let '(ts, values) := map_values buildLogicalGroup groups values in
        ((clauses ++ ts)%list, values)
    | None => (clauses, values)
    end in
  (match clauses with
   | [] => []
   | _ => Txt " WHERE " :: joinT [Txt " AND "] clauses
   end, values).

Definition renderAggregation (agg : AggregationOp) : string :=
  let func := toUpperCase (AggFunction_name (function agg)) in
  let aggStr := func ++ "(" ++ afield agg ++ ")" in
  match truthy_string (alias agg) with
  | Some a => aggStr ++ " AS " ++ a
  | None => aggStr
  end.

Definition buildSelect (query : QueryAST) : text * list value :=
  let selectItems : list string := [] in
  let selectItems :=
    match select query with
    | Some fields => (selectItems ++ fields)%list
    | None => selectItems
    end in
  let selectItems :=
    match aggregations query with
    | Some aggs => fold_left (fun items agg => (items ++ [renderAggregation agg])%list) aggs selectItems
    | None => selectItems
    end in
  let text0 : text :=
    match selectItems with
    | [] => [Txt ("SELECT * FROM " ++ table query)]
    | _ => [Txt ("SELECT " ++ join ", " selectItems ++ " FROM " ++ table query)]
    end in
  let values : list value := [] in
  let '(whereText, values) := buildWhere query values in
  let text1 := (text0 ++ whereText)%list in
  let text2 :=
    match groupBy query with
    | Some fields => (text1 ++ [Txt (" GROUP BY " ++ join ", " fields)])%list
    | None => text1
    end in
  let text3 :=
    match orderBy query with
    | Some o =>
        (text2 ++ [Txt (" ORDER BY " ++ ofield o ++ " "
                        ++ toUpperCase (Direction_name (direction o)))])%list
    | None => text2
    end in
  let text4 :=
    match limit query with
    | Some n => (text3 ++ [Txt (" LIMIT " ++ show_Z n)])%list
    | None => text3
    end in
  let text5 :=
    match offset query with
    | Some n => (text4 ++ [Txt (" OFFSET " ++ show_Z n)])%list
    | None => text4
    end in
  (text5, values).

(** [Object.keys(query.data!)] throws on a missing [data]. *)
Definition buildInsert (query : QueryAST) : result (text * list value) :=
  match data query with
  | None => Throw (TypeError "Cannot convert undefined or null to object")
  | Some d =>
      let keys := map fst d in
      let values := map snd d in
      let placeholders := mapi_from 0 (fun _ i => [Ph (i + 1)]) keys in
      Ok (([Txt ("INSERT INTO " ++ table query ++ " (" ++ join ", " keys ++ ") VALUES (")]
             ++ joinT [Txt ", "] placeholders ++ [Txt ") RETURNING *"])%list,
          values)
  end.

Definition buildUpdate (query : QueryAST) : result (text * list value) :=
  match data query with
  | None => Throw (TypeError "Cannot convert undefined or null to object")
  | Some d =>
      let keys := map fst d in
      let values := map snd d in
      let setClauses := mapi_from 0 (fun k i => [Txt (k ++ " = "); Ph (i + 1)]) keys in
      let text0 :=
        ([Txt ("UPDATE " ++ table query ++ " SET ")] ++ joinT [Txt ", "] setClauses)%list in
      let '(whereText, values) := buildWhere query values in
      Ok ((text0 ++ whereText)%list, values)
  end.

Definition buildDelete (query : QueryAST) : text * list value :=
  let text0 := [Txt ("DELETE FROM " ++ table query)] in
  let values : list value := [] in
  let '(whereText, values) := buildWhere query values in
  ((text0 ++ whereText)%list, values).

Definition translate (query : QueryAST) : result (text * list value) :=
  match type query with
  | q_select => Ok (buildSelect query)
  | q_insert => buildInsert query
  | q_update => buildUpdate query
  | q_delete => Ok (buildDelete query)
  end.

Definition plan (query : QueryAST) : result QueryPlan :=
  match translate query with
  | Throw e => Throw e
  | Ok (t, values) =>
      Ok (mkPlan plan_sql (Some (render t)) (Some values) None None None None)
  end.

(** [execute] compiles again and hands the statement and its values to
    the driver, here [client_query]. *)
Definition execute (client_query : string -> list value -> result value)
    (query : QueryAST) : result value :=
  match plan query with
  | Throw e => Throw e
  | Ok p =>
      client_query
        (match plan_query p with Some q => q | None => EmptyString end)
        (match plan_values p with Some vs => vs | None => [] end)
  end.

(** *** Schema migration

    The live database is a state [DB]; the planner reads it through the two
    [information_schema] queries (taken to answer) and [sync] changes it by
    running statements, each of which may fail. *)
Section Migration.
Variable DB : Type.
Variable tableCheck : DB -> string -> bool.
Variable colCheck : DB -> string -> list string.
Variable client_query : DB -> string -> DB * result unit.

Definition typeMap (t : string) : option string :=
  if t =? "string" then Some "VARCHAR(255)"
  else if t =? "number" then Some "FLOAT"
  else if t =? "boolean" then Some "BOOLEAN"
  else if t =? "date" then Some "TIMESTAMP"
  else if t =? "object" then Some "JSONB"
  else if t =? "array" then Some "JSONB"
  else None.

(** [typeMap[fieldType] || "TEXT"] *)
Definition pgTypeOf (def : FieldDef) : string :=
  match typeMap (fieldTypeOf def) with
  | Some pgType => pgType
  | None => "TEXT"
  end.

Definition planModel (db : DB) (acc : list string * list string) (model : ModelSchema)
  : list string * list string :=
  let '(operations, logs) := acc in
  let exists_ := tableCheck db (schema_table model) in
  if negb exists_ then
    let columns :=
      fold_left
        (fun columns fd =>
           let '(field, def) := fd in
           if field =? "id" then columns
           else
             let colStr := dquote ++ field ++ dquote ++ " " ++ pgTypeOf def in
             (columns ++ [colStr])%list)
        (schema_fields model) ["id SERIAL PRIMARY KEY"] in
    let op :=
      "CREATE TABLE " ++ dquote ++ schema_table model ++ dquote
        ++ " (" ++ join ", " columns ++ ");" in
    let log := "[Postgres] Planner created table: " ++ schema_table model in
    ((operations ++ [op])%list, (logs ++ [log])%list)
  else
    let existingColumns := colCheck db (schema_table model) in
    fold_left
      (fun acc fd =>
         let '(operations, logs) := acc in
         let '(field, def) := fd in
         if (field =? "id") || existsb (String.eqb field) existingColumns then acc
         else
           let op :=
             "ALTER TABLE " ++ dquote ++ schema_table model ++ dquote
               ++ " ADD COLUMN " ++ dquote ++ field ++ dquote ++ " "
               ++ pgTypeOf def ++ ";" in
           let log :=
             "[Postgres] Planner appended column: " ++ field ++ " on "
               ++ schema_table model in
           ((operations ++ [op])%list, (logs ++ [log])%list))
      (schema_fields model) (operations, logs).

Definition planSync (db : DB) (models : list ModelSchema) : MigrationPlan string :=
  let '(operations, logs) := fold_left (planModel db) models ([], []) in
  mkMigration mig_sql operations logs.

(** The loop of [sync]: a statement that fails ends the run. *)
Fixpoint runOperations (db : DB) (ops : list string) : DB * result unit :=
  match ops with
  | [] => (db, Ok tt)
  | op :: rest =>
      match client_query db op with
      | (db', Ok _) => runOperations db' rest
      | (db', Throw e) => (db', Throw e)
      end
  end.

Definition sync (db : DB) (models : list ModelSchema) : SyncRun DB :=
  let plan := planSync db models in
  let '(db', r) := runOperations db (operations plan) in
  mkSyncRun db' [] r.
End Migration.

End PostgresAdapter.

(** ** The document compiler ([adapters/mongo.ts]) *)

Module MongoAdapter.

Definition capabilities : AdapterCapabilities :=
  mkCapabilities false true false true.

Definition buildCondition (cond : Condition) : value :=
  match operator cond with
  | op_eq => VObj [(field cond, cvalue cond)]
  | op_gt => VObj [(field cond, VObj [("$gt", cvalue cond)])]
  | op_lt => VObj [(field cond, VObj [("$lt", cvalue cond)])]
  | op_gte => VObj [(field cond, VObj [("$gte", cvalue cond)])]
  | op_lte => VObj [(field cond, VObj [("$lte", cvalue cond)])]
  | op_in =>
      VObj [(field cond,
             VObj [("$in", if isArray (cvalue cond) then cvalue cond
                           else VArr [cvalue cond])])]
  end.

Fixpoint buildLogicalCondition (c : LogicalCondition) : value :=
  match c with
  | Cond c0 => buildCondition c0
  | Group _ [] => VObj []
  | Group ty children =>
      let clauses := map buildLogicalCondition children in
      match ty with
      | AND => VObj [("$and", VArr clauses)]
      | OR => VObj [("$or", VArr clauses)]
      end
  end.

Definition buildLogicalGroup (group : LogicalGroup) : value :=
  buildLogicalCondition (Group (ltype group) (lconditions group)).

Definition buildFilter (query : QueryAST) : value :=
  let andClauses : list value := [] in
  let andClauses :=
    match conditions query with
    | Some cs => (andClauses ++ map buildCondition cs)%list
    | None => andClauses
    end in
  let andClauses :=
    match logical query with
    | Some groups => (andClauses ++ map buildLogicalGroup groups)%list
    | None => andClauses
    end in
  match andClauses with
  | [c] => c
  | [] => VObj []
  | _ => VObj [("$and", VArr andClauses)]
  end.

Definition sortDirection (d : Direction) : value :=
  match d with asc => VNum 1 | desc => VNum (-1) end.

Definition buildAggregatePipeline (query : QueryAST) (filter : value) : list value :=
  let pipeline : list value := [] in
  let pipeline :=
    if (0 <? List.length (keys filter))%nat
    then (pipeline ++ [VObj [("$match", filter)]])%list
    else pipeline in
  let groupStage := [("_id", VNull)] in
  let groupStage :=
    match groupBy query with
    | Some fields =>
        if (0 <? List.length fields)%nat then
          if (List.length fields =? 1)%nat
          then obj_set groupStage "_id" (VStr ("$" ++ hd EmptyString fields))
          else
            obj_set groupStage "_id"
              (VObj (fold_left (fun id f => obj_set id f (VStr ("$" ++ f))) fields []))
        else groupStage
    | None => groupStage
    end in
  let groupStage :=
    match aggregations query with
    | Some aggs =>
        fold_left
          (fun stage agg =>
             let outField :=
               match truthy_string (alias agg) with
               | Some a => a
               | None => AggFunction_name (function agg) ++ "_" ++ afield agg
               end in
             match function agg with
             | f_count => obj_set stage outField (VObj [("$sum", VNum 1)])
             | f =>
                 obj_set stage outField
                   (VObj [("$" ++ AggFunction_name f, VStr ("$" ++ afield agg))])
             end)
          aggs groupStage
    | None => groupStage
    end in
  let pipeline := (pipeline ++ [VObj [("$group", VObj groupStage)]])%list in
  let pipeline :=
    match orderBy query with
    | Some o =>
        let mappedField := ofield o in
        let mappedField :=
          match groupBy query with
          | Some fields =>
              if existsb (String.eqb mappedField) fields
              then if (List.length fields =? 1)%nat then "_id"
                   else "_id." ++ mappedField
              else mappedField
          | None => mappedField
          end in
        (pipeline ++ [VObj [("$sort", VObj [(mappedField, sortDirection (direction o))])]])%list
    | None => pipeline
    end in
  let pipeline :=
    match offset query with
    | Some n => (pipeline ++ [VObj [("$skip", VNum n)]])%list
    | None => pipeline
    end in
  let pipeline :=
    match limit query with
    | Some n => (pipeline ++ [VObj [("$limit", VNum n)]])%list
    | None => pipeline
    end in
  pipeline.

Definition plan (query : QueryAST) : QueryPlan :=
  let filter := buildFilter query in
  match type query with
  | q_select =>
      match aggregations query, groupBy query with
      | None, None =>
          let options : list (string * value) := [] in
          let options :=
            match select query with
            | Some fields =>
                obj_set options "projection"
                  (VObj (fromEntries (map (fun f => (f, VNum 1)) fields)))
            | None => options
            end in
          let options :=
            match limit query with
            | Some n => obj_set options "limit" (VNum n)
            | None => options
            end in
          let options :=
            match offset query with
            | Some n => obj_set options "skip" (VNum n)
            | None => options
            end in
          let options :=
            match orderBy query with
            | Some o =>
                obj_set options "sort" (VObj [(ofield o, sortDirection (direction o))])
            | None => options
            end in
          mkPlan plan_mongo_query None None (Some filter) None (Some options) None
      | _, _ =>
          mkPlan plan_mongo_pipeline None None None
            (Some (buildAggregatePipeline query filter)) None None
      end
  | _ => mkPlan plan_mongo_query None None (Some filter) None None (data query)
  end.

(** *** Schema migration

    The planner reads the names of the live collections ([listCollections],
    taken to answer); [sync] runs commands, each of which may fail. *)
Section Migration.
Variable DB : Type.
Variable listCollections : DB -> list string.
Variable db_command : DB -> value -> DB * result unit.

Definition bsonTypeOf (def : FieldDef) : value :=
  let fieldType := fieldTypeOf def in
  let bsonType := VStr "string" in
  let bsonType :=
    if fieldType =? "number"
    then VArr [VStr "double"; VStr "int"; VStr "long"; VStr "decimal"]
    else bsonType in
  let bsonType := if fieldType =? "boolean" then VStr "bool" else bsonType in
  let bsonType :=
    if fieldType =? "date" then VArr [VStr "date"; VStr "string"] else bsonType in
  let bsonType := if fieldType =? "object" then VStr "object" else bsonType in
  let bsonType := if fieldType =? "array" then VStr "array" else bsonType in
  bsonType.

Definition planModel (existingNames : list string)
    (acc : list value * list string) (model : ModelSchema)
  : list value * list string :=
  let '(operations, logs) := acc in
  let '(operations, logs) :=
    if negb (existsb (String.eqb (schema_table model)) existingNames) then
      let log := "[Mongo] Planner scheduled collection creation: "
                   ++ schema_table model in
      ((operations ++ [VObj [("create", VStr (schema_table model))]])%list,
       (logs ++ [log])%list)
    else (operations, logs) in
  let requiredOptions : list string := [] in
  let properties :=
    fold_left
      (fun properties fd =>
         let '(field, def) := fd in
         if field =? "id" then properties
         else obj_set properties field (VObj [("bsonType", bsonTypeOf def)]))
      (schema_fields model) [] in
  let validatorConfig := [("bsonType", VStr "object"); ("properties", VObj properties)] in
  let validatorConfig :=
    if (0 <? List.length requiredOptions)%nat
    then obj_set validatorConfig "required" (VArr (map VStr requiredOptions))
    else validatorConfig in
  let log := "[Mongo] Planner mapped $jsonSchema validations for collection: "
               ++ schema_table model in
  ((operations
      ++ [VObj [("collMod", VStr (schema_table model));
                ("validator", VObj [("$jsonSchema", VObj validatorConfig)])]])%list,
   (logs ++ [log])%list).

Definition planSync (db : DB) (models : list ModelSchema) : MigrationPlan value :=
  let existingNames := listCollections db in
  let '(operations, logs) := fold_left (planModel existingNames) models ([], []) in
  mkMigration mig_mongo operations logs.

(** The loop of [sync]: the [catch] block is empty, so a command that
    fails is dropped and the loop goes on. *)
Fixpoint runOperations (db : DB) (ops : list value) : DB :=
  match ops with
  | [] => db
  | op :: rest =>
      match db_command db op with
      | (db', Ok _) => runOperations db' rest
      | (db', Throw _) => runOperations db' rest
      end
  end.

Definition sync (db : DB) (models : list ModelSchema) : SyncRun DB :=
  let plan := planSync db models in
  mkSyncRun (runOperations db (operations plan)) [] (Ok tt).
End Migration.

End MongoAdapter.

(** ** The capability validator ([core/planner.ts]) *)

Definition validateQuery (query : QueryAST) (capabilities : AdapterCapabilities)
  : result bool :=
  if negb (supportsAggregation capabilities) then
    match aggregations query with
    | Some (_ :: _) => Throw (CapabilityError "Adapter does not support aggregations")
    | _ =>
        match groupBy query with
        | Some (_ :: _) => Throw (CapabilityError "Adapter does not support grouping")
        | _ => Ok true
        end
    end
  else Ok true.

(** ** The builder ([query/builder.ts]) *)

Module QueryBuilder.

Record t : Type := mk {
  table : string;
  mode : QueryType;
  conditions : list Condition;
  logicalGroups : list LogicalGroup;
  groupByFields : option (list string);
  aggregations : option (list AggregationOp);
  data : option (list (string * value));
  limitValue : option Z;
  offsetValue : option Z;
  orderByValue : option OrderBy;
  selectFields : option (list string)
}.

Definition new (table : string) : t :=
  mk table q_select [] [] None None None None None None None.

Definition where_ (field : string) (operator : Operator) (v : value) (b : t) : t :=
  mk (table b) (mode b) (conditions b ++ [mkCondition field operator v])
     (logicalGroups b) (groupByFields b) (aggregations b) (data b)
     (limitValue b) (offsetValue b) (orderByValue b) (selectFields b).

Definition or_ (cs : list LogicalCondition) (b : t) : t :=
  mk (table b) (mode b) (conditions b) (logicalGroups b ++ [mkGroup OR cs])
     (groupByFields b) (aggregations b) (data b)
     (limitValue b) (offsetValue b) (orderByValue b) (selectFields b).

Definition and_ (cs : list LogicalCondition) (b : t) : t :=
  mk (table b) (mode b) (conditions b) (logicalGroups b ++ [mkGroup AND cs])
     (groupByFields b) (aggregations b) (data b)
     (limitValue b) (offsetValue b) (orderByValue b) (selectFields b).

Definition limit (n : Z) (b : t) : t :=
  mk (table b) (mode b) (conditions b) (logicalGroups b) (groupByFields b)
     (aggregations b) (data b) (Some n) (offsetValue b) (orderByValue b)
     (selectFields b).

Definition offset (n : Z) (b : t) : t :=
  mk (table b) (mode b) (conditions b) (logicalGroups b) (groupByFields b)
     (aggregations b) (data b) (limitValue b) (Some n) (orderByValue b)
     (selectFields b).

(** The offset is [(page - 1) * pageSize] in the arithmetic of numbers. *)
Definition paginate (page pageSize : Z) (b : t) : t :=
  mk (table b) (mode b) (conditions b) (logicalGroups b) (groupByFields b)
     (aggregations b) (data b) (Some pageSize)
     (Some (number_mul (number_sub page 1) pageSize))
     (orderByValue b) (selectFields b).

Definition orderBy (field : string) (direction : Direction) (b : t) : t :=
  mk (table b) (mode b) (conditions b) (logicalGroups b) (groupByFields b)
     (aggregations b) (data b) (limitValue b) (offsetValue b)
     (Some (mkOrderBy field direction)) (selectFields b).

Definition select (fields : list string) (b : t) : t :=
  mk (table b) (mode b) (conditions b) (logicalGroups b) (groupByFields b)
     (aggregations b) (data b) (limitValue b) (offsetValue b) (orderByValue b)
     (Some fields).

Definition insert (d : list (string * value)) (b : t) : t :=
  mk (table b) q_insert (conditions b) (logicalGroups b) (groupByFields b)
     (aggregations b) (Some d) (limitValue b) (offsetValue b) (orderByValue b)
     (selectFields b).

Definition update (d : list (string * value)) (b : t) : t :=
  mk (table b) q_update (conditions b) (logicalGroups b) (groupByFields b)
     (aggregations b) (Some d) (limitValue b) (offsetValue b) (orderByValue b)
     (selectFields b).

Definition delete (b : t) : t :=
  mk (table b) q_delete (conditions b) (logicalGroups b) (groupByFields b)
     (aggregations b) (data b) (limitValue b) (offsetValue b) (orderByValue b)
     (selectFields b).

Definition groupBy (fields : list string) (b : t) : t :=
  mk (table b) (mode b) (conditions b) (logicalGroups b) (Some fields)
     (aggregations b) (data b) (limitValue b) (offsetValue b) (orderByValue b)
     (selectFields b).

Definition aggregate (func : AggFunction) (field : string) (alias : option string)
    (b : t) : t :=
  let aggs := match aggregations b with Some l => l | None => [] end in
  mk (table b) (mode b) (conditions b) (logicalGroups b) (groupByFields b)
     (Some (aggs ++ [mkAgg func field alias])%list) (data b) (limitValue b)
     (offsetValue b) (orderByValue b) (selectFields b).

Definition count := aggregate f_count.
Definition sum := aggregate f_sum.
Definition avg := aggregate f_avg.
Definition min := aggregate f_min.
Definition max := aggregate f_max.

Definition build (b : t) : QueryAST :=
  mkQuery (mode b) (table b)
    (match conditions b with [] => None | cs => Some cs end)
    (match logicalGroups b with [] => None | gs => Some gs end)
    (groupByFields b)
    (match aggregations b with
     | Some ((_ :: _) as aggs) => Some aggs
     | _ => None
     end)
    (data b) (limitValue b) (offsetValue b) (orderByValue b) (selectFields b)
    None.

(** One chained call on a builder. *)
Inductive Call : Type :=
| CWhere (field : string) (operator : Operator) (v : value)
| COr (cs : list LogicalCondition)
| CAnd (cs : list LogicalCondition)
| CLimit (n : Z)
| COffset (n : Z)
| CPaginate (page pageSize : Z)
| COrderBy (field : string) (direction : Direction)
| CSelect (fields : list string)
| CInsert (d : list (string * value))
| CUpdate (d : list (string * value))
| CDelete
| CGroupBy (fields : list string)
| CCount (field : string) (alias : option string)
| CSum (field : string) (alias : option string)
| CAvg (field : string) (alias : option string)
| CMin (field : string) (alias : option string)
| CMax (field : string) (alias : option string).

Definition call (b : t) (c : Call) : t :=
  match c with
  | CWhere f op v => where_ f op v b
  | COr cs => or_ cs b
  | CAnd cs => and_ cs b
  | CLimit n => limit n b
  | COffset n => offset n b
  | CPaginate p s => paginate p s b
  | COrderBy f d => orderBy f d b
  | CSelect fs => select fs b
  | CInsert d => insert d b
  | CUpdate d => update d b
  | CDelete => delete b
  | CGroupBy fs => groupBy fs b
  | CCount f a => count f a b
  | CSum f a => sum f a b
  | CAvg f a => avg f a b
  | CMin f a => min f a b
  | CMax f a => max f a b
  end.

(** [new QueryBuilder(table).c1(...).c2(...)...] *)
Definition chain (table : string) (calls : list Call) : t :=
  fold_left call calls (new table).

End QueryBuilder.

(** ** The router ([synqra.ts]) *)

(** The [Adapter] interface, with the [name] the router reports. *)
Record Adapter : Type := mkAdapter {
  adapter_name : string;
  adapter_capabilities : AdapterCapabilities;
  adapter_plan : QueryAST -> result QueryPlan;
  adapter_execute : QueryAST -> result value
}.

Definition postgres (name : string) (capabilities : AdapterCapabilities)
    (client_query : string -> list value -> result value) : Adapter :=
  mkAdapter name capabilities PostgresAdapter.plan
    (PostgresAdapter.execute client_query).

Definition mongo (name : string) (capabilities : AdapterCapabilities)
    (driver : QueryAST -> result value) : Adapter :=
  mkAdapter name capabilities (fun q => Ok (MongoAdapter.plan q)) driver.

(** The durations of [QueryMetrics] are wall-clock readings and are left
    out; the adapter name is kept. *)
Record QueryMetrics : Type := mkMetrics {
  metrics_adapter : string
}.

Definition QueryObserver : Type := QueryMetrics -> QueryPlan -> QueryAST -> result unit.

(** What a query execution does, in the order it does it. *)
Inductive Event : Type :=
| EvPlan (adapter : string)
| EvValidate (adapter : string)
| EvExecute (adapter : string)
| EvObserve (index : nat).

(** Computations that log events and may throw. *)
Definition M (A : Type) : Type := (list Event * result A)%type.

Definition ret (A : Type) (a : A) : M A := ([], Ok a).

Definition bind (A B : Type) (m : M A) (k : A -> M B) : M B :=
  match m with
  | (tr, Ok a) => let '(tr', r) := k a in ((tr ++ tr')%list, r)
  | (tr, Throw e) => (tr, Throw e)
  end.

Definition step (A : Type) (ev : Event) (r : result A) : M A := ([ev], r).

Definition throw (A : Type) (e : Error) : M A := ([], Throw e).
Arguments throw {A} e.

Notation "x <- c1 ;; c2" := (bind c1 (fun x => c2))
  (at level 61, c1 at next level, right associativity).

Definition trace (A : Type) (m : M A) : list Event := fst m.

Definition withIntent (query : QueryAST) (i : Intent) : QueryAST :=
  mkQuery (type query) (table query) (conditions query) (logical query)
    (groupBy query) (aggregations query) (data query) (limit query)
    (offset query) (orderBy query) (select query) (Some i).

Module Synqra.

Record t : Type := mk {
  adapters : list (string * Adapter);
  observers : list QueryObserver
}.

(** [Map.prototype.set], [has] and [get] on the adapter map. *)
Fixpoint map_set (m : list (string * Adapter)) (k : string) (a : Adapter)
  : list (string * Adapter) :=
  match m with
  | [] => [(k, a)]
  | (k', a') :: rest =>
      if String.eqb k' k then (k', a) :: rest else (k', a') :: map_set rest k a
  end.

Fixpoint map_get (m : list (string * Adapter)) (k : string) : option Adapter :=
  match m with
  | [] => None
  | (k', a) :: rest => if String.eqb k' k then Some a else map_get rest k
  end.

Definition map_has (m : list (string * Adapter)) (k : string) : bool :=
  match map_get m k with Some _ => true | None => false end.

Definition addAdapter (name : string) (adapter : Adapter) (db : t) : t :=
  mk (map_set (adapters db) name adapter) (observers db).

Definition new (adapter : Adapter) : t :=
  addAdapter "primary" adapter (mk [] []).

Definition addObserver (observer : QueryObserver) (db : t) : t :=
  mk (adapters db) (observers db ++ [observer]).

Definition getAdapterByIntent (db : t) (intent : option Intent) : option Adapter :=
  match intent with
  | Some i_aggregate =>
      if map_has (adapters db) "analytics" then map_get (adapters db) "analytics"
      else map_get (adapters db) "primary"
  | Some i_read =>
      if map_has (adapters db) "replica" then map_get (adapters db) "replica"
      else map_get (adapters db) "primary"
  | _ => map_get (adapters db) "primary"
  end.

Fixpoint observe_from (i : nat) (obs : list QueryObserver) (metrics : QueryMetrics)
    (plan : QueryPlan) (query : QueryAST) : M unit :=
  match obs with
  | [] => ret tt
  | observer :: rest =>
      _ <- step (EvObserve i) (observer metrics plan query) ;;
      observe_from (S i) rest metrics plan query
  end.

Definition observe (db : t) (metrics : QueryMetrics) (plan : QueryPlan)
    (query : QueryAST) : M unit :=
  observe_from 0 (observers db) metrics plan query.

(** [SynqraQuery.execute] *)
Definition execute (db : t) (query : QueryAST) : M value :=
  match getAdapterByIntent db (intent query) with
  | None => throw (TypeError "Cannot read properties of undefined")
  | Some adapter =>
      plan <- step (EvPlan (adapter_name adapter)) (adapter_plan adapter query) ;;
      _ <- step (EvValidate (adapter_name adapter))
             (validateQuery query (adapter_capabilities adapter)) ;;
      result <- step (EvExecute (adapter_name adapter))
                  (adapter_execute adapter query) ;;
      _ <- observe db (mkMetrics (adapter_name adapter)) plan query ;;
      ret result
  end.

(** [SynqraQuery]: a builder bound to a router, with an optional forced
    intent. *)
Record Query : Type := mkSynqraQuery {
  db : t;
  builder : QueryBuilder.t;
  forcedIntent : option Intent
}.

Definition from (d : t) (table : string) : Query :=
  mkSynqraQuery d (QueryBuilder.new table) None.

Definition intentOr (q : Query) (default : Intent) : Intent :=
  match forcedIntent q with Some i => i | None => default end.

Definition find (q : Query) : M value :=
  let query := QueryBuilder.build (builder q) in
  execute (db q) (withIntent query (intentOr q i_read)).

Definition insert (d : list (string * value)) (q : Query) : M value :=
  let query := QueryBuilder.build (QueryBuilder.insert d (builder q)) in
  execute (db q) (withIntent query (intentOr q i_write)).

Definition update (d : list (string * value)) (q : Query) : M value :=
  let query := QueryBuilder.build (QueryBuilder.update d (builder q)) in
  execute (db q) (withIntent query (intentOr q i_write)).

Definition delete (q : Query) : M value :=
  let query := QueryBuilder.build (QueryBuilder.delete (builder q)) in
  execute (db q) (withIntent query (intentOr q i_write)).

End Synqra.

(** ** Reference descriptions used by the theorems *)

(** The literal values of a condition, in the order written: the elements
    of an array under [in], the value itself otherwise. *)
Definition condition_literals (c : Condition) : list value :=
  match operator c, cvalue c with
  | op_in, VArr items => items
  | _, v => [v]
  end.

(** Depth-first, left-to-right literals of a logical tree. *)
Fixpoint logical_literals (c : LogicalCondition) : list value :=
  match c with
  | Cond c0 => condition_literals c0
  | Group _ children => flat_map logical_literals children
  end.

Definition group_literals (g : LogicalGroup) : list value :=
  flat_map logical_literals (lconditions g).

(** Flat conditions first, then the logical groups. *)
Definition where_literals (query : QueryAST) : list value :=
  (flat_map condition_literals
     (match conditions query with Some cs => cs | None => [] end)
   ++ flat_map group_literals
        (match logical query with Some gs => gs | None => [] end))%list.

(** [WHERE age > 18 AND (status = 'active' OR status = 'pending')] *)
Definition q_adults : QueryAST :=
  mkQuery q_select "users"
    (Some [mkCondition "age" op_gt (VNum 18)])
    (Some [mkGroup OR [Cond (mkCondition "status" op_eq (VStr "active"));
                       Cond (mkCondition "status" op_eq (VStr "pending"))]])
    None None None None None None None None.

(** A compile step [f] binds the literals [lit]: it appends exactly them,
    and numbers its placeholders from the length of the list on. *)
Definition binds (A : Type) (f : A -> list value -> text * list value)
    (lit : A -> list value) (x : A) : Prop :=
  forall values,
    snd (f x values) = (values ++ lit x)%list
    /\ placeholders (fst (f x values))
       = seq (S (List.length values)) (List.length (lit x)).

(** The length of the value list right after the [i]-th literal went in,
    for each literal in turn. *)
Definition lengths_at_insertion (values lits : list value) : list nat :=
  map (fun i => List.length (values ++ firstn (S i) lits)%list) (seq 0 (List.length lits)).

(** A present, non-empty list ([xs && xs.length > 0]). *)
Definition non_empty (A : Type) (xs : option (list A)) : bool :=
  match xs with
  | Some (_ :: _) => true
  | _ => false
  end.

Definition withAggregation (flag : bool) (c : AdapterCapabilities) : AdapterCapabilities :=
  mkCapabilities (supportsTransactions c) flag (supportsJoins c) (supportsSchemaSync c).

(** [restrictedCore.from("sales").count("id")] of the test suite. *)
Definition q_count_sales : QueryAST :=
  QueryBuilder.build (QueryBuilder.chain "sales" [QueryBuilder.CCount "id" None]).

Definition alice : list (string * value) := [("name", VStr "Alice")].

(** *** Set membership in the document store

    The store that evaluates a filter is outside the repository.  Of [$in]
    only this much is used: a document satisfies [{f: {$in: candidates}}]
    when its field [f] matches at least one candidate.  What it takes for a
    field to match one candidate is the store's business and stays a
    parameter ([matches_value]).  A filter of another shape gets no
    verdict here. *)
Section SetMembership.
Variable Document : Type.
Variable matches_value : Document -> string -> value -> bool.

Definition satisfies_in (filter : value) (doc : Document) : option bool :=
  match filter with
  | VObj [(f, VObj [(op, VArr candidates)])] =>
      if op =? "$in" then Some (existsb (matches_value doc f) candidates) else None
  | _ => None
  end.
End SetMembership.

(** [IN] over a scalar and over the one-element array of it. *)
Definition q_status_in (v : value) : QueryAST :=
  QueryBuilder.build
    (QueryBuilder.chain "users" [QueryBuilder.CWhere "status" op_in v]).

(** *** The aggregation pipeline, stage by stage *)

Definition field_ref (f : string) : value := VStr ("$" ++ f).

(** The grouping key: the field reference for one group-by field, an object
    with an entry per field for several, [null] for none. *)
Definition group_key (query : QueryAST) : value :=
  match groupBy query with
  | Some [f] => field_ref f
  | Some ((_ :: _ :: _) as fields) =>
      VObj (fromEntries (map (fun f => (f, field_ref f)) fields))
  | _ => VNull
  end.

(** The output field of an aggregation: its alias, or [function_field]
    when it has none. *)
Definition out_field (agg : AggregationOp) : string :=
  match truthy_string (alias agg) with
  | Some a => a
  | None => AggFunction_name (function agg) ++ "_" ++ afield agg
  end.

(** [{alias: {$sum: 1}}] for count, [{alias: {$func: "$field"}}] otherwise. *)
Definition accumulator (agg : AggregationOp) : string * value :=
  (out_field agg,
   match function agg with
   | f_count => VObj [("$sum", VNum 1)]
   | f => VObj [("$" ++ AggFunction_name f, field_ref (afield agg))]
   end).

Definition match_stage (filter : value) : list value :=
  match filter with
  | VObj (_ :: _) => [VObj [("$match", filter)]]
  | _ => []
  end.

Definition aggregation_ops (query : QueryAST) : list AggregationOp :=
  match aggregations query with Some aggs => aggs | None => [] end.

(** The entries written into the [$group] document, in the order they are
    written: the key under [_id], then an accumulator per aggregation. *)
Definition group_entries (query : QueryAST) : list (string * value) :=
  ("_id", group_key query) :: map accumulator (aggregation_ops query).

(** The [$group] document: an object, so that an entry written under a
    name that is already there takes the place of the earlier one. *)
Definition group_document (query : QueryAST) : list (string * value) :=
  fromEntries (group_entries query).

Definition group_stage (query : QueryAST) : value :=
  VObj [("$group", VObj (group_document query))].


(** A sorted field that is a group key is addressed through [_id]. *)
Definition sort_key (query : QueryAST) (o : OrderBy) : string :=
  match groupBy query with
  | Some fields =>
      if existsb (String.eqb (ofield o)) fields then
        match fields with
        | [_] => "_id"
        | _ => "_id." ++ ofield o
        end
      else ofield o
  | None => ofield o
  end.

Definition sort_stage (query : QueryAST) : list value :=
  match orderBy query with
  | Some o =>
      [VObj [("$sort",
              VObj [(sort_key query o,
                     match direction o with asc => VNum 1 | desc => VNum (-1) end)])]]
  | None => []
  end.

Definition skip_stage (query : QueryAST) : list value :=
  match offset query with Some n => [VObj [("$skip", VNum n)]] | None => [] end.

Definition limit_stage (query : QueryAST) : list value :=
  match limit query with Some n => [VObj [("$limit", VNum n)]] | None => [] end.

Definition pipeline_stages (query : QueryAST) (filter : value) : list value :=
  (match_stage filter ++ [group_stage query] ++ sort_stage query
     ++ skip_stage query ++ limit_stage query)%list.




(** *** The SELECT statement, clause by clause *)

Definition upper_name (f : AggFunction) : string :=
  match f with
  | f_count => "COUNT" | f_sum => "SUM" | f_avg => "AVG"
  | f_min => "MIN" | f_max => "MAX"
  end.

(** [FUNC(field)], followed by [ AS alias] when an alias is set. *)
Definition aggregation_column (agg : AggregationOp) : string :=
  upper_name (function agg) ++ "(" ++ afield agg ++ ")"
    ++ match truthy_string (alias agg) with
       | Some a => " AS " ++ a
       | None => EmptyString
       end.

Definition projection_list (query : QueryAST) : list string :=
  match select query with Some fields => fields | None => [] end.

Definition aggregation_list (query : QueryAST) : list string :=
  map aggregation_column
    (match aggregations query with Some aggs => aggs | None => [] end).

(** The column order as the specification words it: aggregations, then
    the projection. *)
Definition columns_aggregations_first (query : QueryAST) : list string :=
  (aggregation_list query ++ projection_list query)%list.

(** The column order of the compiler: the projection, then the
    aggregations. *)
Definition columns_projection_first (query : QueryAST) : list string :=
  (projection_list query ++ aggregation_list query)%list.

Definition where_clause (query : QueryAST) : string :=
  render (fst (PostgresAdapter.buildWhere query [])).

(** The clauses of the WHERE text: one per flat condition, then one per
    logical group, the placeholders numbered along. *)
Definition where_clauses (query : QueryAST) : list text :=
  let '(ts, values) :=
    map_values PostgresAdapter.buildCondition
      (match conditions query with Some cs => cs | None => [] end) [] in
  (ts ++ fst (map_values PostgresAdapter.buildLogicalGroup
                (match logical query with Some gs => gs | None => [] end) values))%list.

(** The number of top-level filter clauses of a query. *)
Definition clause_count (query : QueryAST) : nat :=
  List.length (match conditions query with Some cs => cs | None => [] end)
  + List.length (match logical query with Some gs => gs | None => [] end).

Definition group_by_clause (query : QueryAST) : string :=
  match groupBy query with
  | Some fields => " GROUP BY " ++ join ", " fields
  | None => EmptyString
  end.

Definition order_by_clause (query : QueryAST) : string :=
  match orderBy query with
  | Some o =>
      " ORDER BY " ++ ofield o ++ " "
        ++ match direction o with asc => "ASC" | desc => "DESC" end
  | None => EmptyString
  end.

Definition limit_clause (query : QueryAST) : string :=
  match limit query with Some n => " LIMIT " ++ show_Z n | None => EmptyString end.

Definition offset_clause (query : QueryAST) : string :=
  match offset query with Some n => " OFFSET " ++ show_Z n | None => EmptyString end.

(** [SELECT <cols> FROM <table>] and the clauses in their fixed order. *)
Definition select_statement (cols : list string) (query : QueryAST) : string :=
  "SELECT " ++ match cols with [] => "*" | _ => join ", " cols end
    ++ " FROM " ++ table query
    ++ where_clause query ++ group_by_clause query ++ order_by_clause query
    ++ limit_clause query ++ offset_clause query.

(** [select(["category"]).sum("amount", "total")] on [sales]. *)
Definition q_category_total : QueryAST :=
  QueryBuilder.build
    (QueryBuilder.chain "sales"
       [QueryBuilder.CSelect ["category"];
        QueryBuilder.CSum "amount" (Some "total")]).

(** *** The relational migration plan, operation by operation *)

(** The type table as the specification words it, [JSON] for objects and
    arrays. *)
Definition spec_column_type (def : FieldDef) : string :=
  let t := fieldTypeOf def in
  if t =? "string" then "VARCHAR(255)"
  else if t =? "number" then "FLOAT"
  else if t =? "boolean" then "BOOLEAN"
  else if t =? "date" then "TIMESTAMP"
  else if t =? "object" then "JSON"
  else if t =? "array" then "JSON"
  else "TEXT".

Definition is_id (fd : string * FieldDef) : bool := fst fd =? "id".

Definition column_decl (ty : FieldDef -> string) (fd : string * FieldDef) : string :=
  dquote ++ fst fd ++ dquote ++ " " ++ ty (snd fd).

(** One CREATE TABLE: the [id] key, then a column per declared non-id
    field. *)
Definition create_table (ty : FieldDef -> string) (model : ModelSchema) : string :=
  "CREATE TABLE " ++ dquote ++ schema_table model ++ dquote ++ " ("
    ++ join ", "
         ("id SERIAL PRIMARY KEY"
            :: map (column_decl ty)
                 (filter (fun fd => negb (is_id fd)) (schema_fields model)))
    ++ ");".

Definition add_column (ty : FieldDef -> string) (model : ModelSchema)
    (fd : string * FieldDef) : string :=
  "ALTER TABLE " ++ dquote ++ schema_table model ++ dquote ++ " ADD COLUMN "
    ++ column_decl ty fd ++ ";".

(** The declared non-id fields that the introspected columns lack. *)
Definition missing_fields (existing : list string) (model : ModelSchema)
  : list (string * FieldDef) :=
  filter (fun fd => negb (is_id fd || existsb (String.eqb (fst fd)) existing))
    (schema_fields model).

Section ExpectedPlan.
Variable DB : Type.
Variable tableCheck : DB -> string -> bool.
Variable colCheck : DB -> string -> list string.

Definition model_operations (ty : FieldDef -> string) (db : DB) (model : ModelSchema)
  : list string :=
  if tableCheck db (schema_table model)
  then map (add_column ty model) (missing_fields (colCheck db (schema_table model)) model)
  else [create_table ty model].

Definition expected_operations (ty : FieldDef -> string) (db : DB)
    (models : list ModelSchema) : list string :=
  flat_map (model_operations ty db) models.

(** Every table is there and has every declared non-id field. *)
Definition synced (db : DB) (models : list ModelSchema) : Prop :=
  forall model, In model models ->
    tableCheck db (schema_table model) = true
    /\ forall fd, In fd (schema_fields model) -> is_id fd = false ->
         In (fst fd) (colCheck db (schema_table model)).
End ExpectedPlan.

(** A physical schema given by its tables and their columns. *)
Definition Physical : Type := list (string * list string).

Fixpoint physical_columns (db : Physical) (t : string) : option (list string) :=
  match db with
  | [] => None
  | (t', cols) :: rest => if t' =? t then Some cols else physical_columns rest t
  end.

Definition physical_tableCheck (db : Physical) (t : string) : bool :=
  match physical_columns db t with Some _ => true | None => false end.

Definition physical_colCheck (db : Physical) (t : string) : list string :=
  match physical_columns db t with Some cols => cols | None => [] end.

Definition user_model : ModelSchema :=
  mkModel "User" "users"
    [("name", FieldType "string"); ("email", FieldType "string");
     ("age", FieldType "number"); ("active", FieldType "boolean")].

Definition profile_model : ModelSchema :=
  mkModel "Profile" "profiles"
    [("bio", FieldType "string"); ("settings", FieldType "object")].

Definition users_synced : Physical :=
  [("users", ["id"; "name"; "email"; "age"; "active"])].

(** *** Backends for the [sync] runs

    A backend that keeps a journal of the operations it was asked to run. *)

Definition duplicate_column : Error :=
  BackendError "column email of relation users already exists".

Definition not_authorized : Error :=
  BackendError "not authorized on test to execute command".

(** The [users] table as a planning pass sees it before a concurrent run
    adds [email] to it. *)
Definition users_stale : Physical := [("users", ["id"; "name"; "age"; "active"])].

Definition journal_tableCheck (_ : list string) (t : string) : bool :=
  physical_tableCheck users_stale t.

Definition journal_colCheck (_ : list string) (t : string) : list string :=
  physical_colCheck users_stale t.

(** Every statement is journalled; adding a column fails because the
    concurrent run has added it already, anything else succeeds. *)
Definition racing_client (journal : list string) (op : string)
  : list string * result unit :=
  ((journal ++ [op])%list,
   if prefix "ALTER TABLE" op then Throw duplicate_column else Ok tt).

(** Every command is journalled and refused. *)
Definition refusing_driver (journal : list value) (op : value)
  : list value * result unit :=
  ((journal ++ [op])%list, Throw not_authorized).

Definition no_collections (_ : list value) : list string := [].

(** *** Order of events in a query execution *)



Definition is_execute (ev : Event) : bool :=
  match ev with EvExecute _ => true | _ => false end.




(** The mocked driver of the test suite: every statement returns no rows. *)
Definition no_rows (_ : string) (_ : list value) : result value := Ok (VArr []).


Definition plain_db : Synqra.t :=
  Synqra.new (postgres "primary-pg" PostgresAdapter.capabilities no_rows).

(** *** Kind and data of a built query *)

(** The invariant as the specification words it: data is there exactly
    for the kinds insert and update. *)
Definition data_iff_write (ast : QueryAST) : Prop :=
  data ast <> None <-> (type ast = q_insert \/ type ast = q_update).

(** The kind chosen by the last mode call of a chain, select when there is
    none. *)
Definition last_mode (calls : list QueryBuilder.Call) : QueryType :=
  fold_left
    (fun m c =>
       match c with
       | QueryBuilder.CInsert _ => q_insert
       | QueryBuilder.CUpdate _ => q_update
       | QueryBuilder.CDelete => q_delete
       | _ => m
       end)
    calls q_select.

(** The argument of the last [insert] or [update] call of a chain. *)
Definition last_payload (calls : list QueryBuilder.Call) : option (list (string * value)) :=
  fold_left
    (fun d c =>
       match c with
       | QueryBuilder.CInsert x => Some x
       | QueryBuilder.CUpdate x => Some x
       | _ => d
       end)
    calls None.


(** ** Further reference descriptions *)

Definition dollar (n : nat) : string := "$" ++ show_nat n.

(** [INSERT INTO t (k1, ..) VALUES ($1, ..) RETURNING *] *)
Definition insert_sql (tbl : string) (d : list (string * value)) : string :=
  "INSERT INTO " ++ tbl ++ " (" ++ join ", " (map fst d) ++ ") VALUES ("
    ++ join ", " (map dollar (seq 1 (List.length d))) ++ ") RETURNING *".

(** [k1 = $1, k2 = $2, ..] *)
Definition set_list (d : list (string * value)) : string :=
  join ", "
    (map (fun ik => snd ik ++ " = " ++ dollar (fst ik))
       (combine (seq 1 (List.length d)) (map fst d))).

Definition with_conditions (query : QueryAST) (cs : option (list Condition))
    (gs : option (list LogicalGroup)) : QueryAST :=
  mkQuery (type query) (table query) cs gs (groupBy query) (aggregations query)
    (data query) (limit query) (offset query) (orderBy query) (select query)
    (intent query).

(** A query whose only top-level clause is an empty logical group. *)
Definition only_empty_group (query : QueryAST) : Prop :=
  (conditions query = None \/ conditions query = Some [])
  /\ exists ty, logical query = Some [mkGroup ty []].


(** ** More of the document adapter ([adapters/mongo.ts]) *)






(** The options of a plain find, as the plan reports them. *)
Definition projection_of (fields : list string) : value :=
  VObj (fromEntries (map (fun f => (f, VNum 1)) fields)).

Definition sort_of (o : OrderBy) : value :=
  VObj [(ofield o, match direction o with asc => VNum 1 | desc => VNum (-1) end)].

Definition plain_select (query : QueryAST) : Prop :=
  type query = q_select /\ aggregations query = None /\ groupBy query = None.

(** The commands the document planner lists for one schema. *)
Definition validator_properties (model : ModelSchema) : list (string * value) :=
  fromEntries
    (map (fun fd => (fst fd, VObj [("bsonType", MongoAdapter.bsonTypeOf (snd fd))]))
       (filter (fun fd => negb (is_id fd)) (schema_fields model))).

Definition collMod_command (model : ModelSchema) : value :=
  VObj [("collMod", VStr (schema_table model));
        ("validator",
         VObj [("$jsonSchema",
                VObj [("bsonType", VStr "object");
                      ("properties", VObj (validator_properties model))])])].

Definition create_command (model : ModelSchema) : value :=
  VObj [("create", VStr (schema_table model))].

Definition document_operations (existing : list string) (model : ModelSchema)
  : list value :=
  ((if existsb (String.eqb (schema_table model)) existing then []
    else [create_command model]) ++ [collMod_command model])%list.

(** A backend after a list of operations has been put to it one after the
    other, failed or not. *)
Definition issued (DB Op : Type) (run : DB -> Op -> DB * result unit)
    (ops : list Op) (db : DB) : DB :=
  fold_left (fun db op => fst (run db op)) ops db.

(** A driver that journals every command and accepts it. *)
Definition accepting_client (journal : list string) (op : string)
  : list string * result unit :=
  ((journal ++ [op])%list, Ok tt).



(** ** What a chain of builder calls amounts to *)

Definition where_calls (calls : list QueryBuilder.Call) : list Condition :=
  flat_map
    (fun c =>
       match c with
       | QueryBuilder.CWhere f op v => [mkCondition f op v]
       | _ => []
       end)
    calls.

Definition group_calls (calls : list QueryBuilder.Call) : list LogicalGroup :=
  flat_map
    (fun c =>
       match c with
       | QueryBuilder.COr cs => [mkGroup OR cs]
       | QueryBuilder.CAnd cs => [mkGroup AND cs]
       | _ => []
       end)
    calls.

Definition aggregate_calls (calls : list QueryBuilder.Call) : list AggregationOp :=
  flat_map
    (fun c =>
       match c with
       | QueryBuilder.CCount f a => [mkAgg f_count f a]
       | QueryBuilder.CSum f a => [mkAgg f_sum f a]
       | QueryBuilder.CAvg f a => [mkAgg f_avg f a]
       | QueryBuilder.CMin f a => [mkAgg f_min f a]
       | QueryBuilder.CMax f a => [mkAgg f_max f a]
       | _ => []
       end)
    calls.

(** [None] for the empty list, as [build] reports an empty array. *)
Definition some_if_any (A : Type) (xs : list A) : option (list A) :=
  match xs with
  | [] => None
  | _ => Some xs
  end.

(** The last value a chain gives to a field that each call overwrites. *)
Definition last_set (A : Type) (pick : QueryBuilder.Call -> option A)
    (calls : list QueryBuilder.Call) : option A :=
  fold_left (fun acc c => match pick c with Some x => Some x | None => acc end)
    calls None.

Definition pick_limit (c : QueryBuilder.Call) : option Z :=
  match c with
  | QueryBuilder.CLimit n => Some n
  | QueryBuilder.CPaginate _ pageSize => Some pageSize
  | _ => None
  end.

Definition pick_offset (c : QueryBuilder.Call) : option Z :=
  match c with
  | QueryBuilder.COffset n => Some n
  | QueryBuilder.CPaginate page pageSize =>
      Some (number_mul (number_sub page 1) pageSize)
  | _ => None
  end.

(** The arguments of a [paginate] call are finite numbers. *)
Definition finite_pages (c : QueryBuilder.Call) : Prop :=
  match c with
  | QueryBuilder.CPaginate page pageSize => finite_number page /\ finite_number pageSize
  | _ => True
  end.

Definition pick_orderBy (c : QueryBuilder.Call) : option OrderBy :=
  match c with
  | QueryBuilder.COrderBy f d => Some (mkOrderBy f d)
  | _ => None
  end.

Definition pick_select (c : QueryBuilder.Call) : option (list string) :=
  match c with
  | QueryBuilder.CSelect fs => Some fs
  | _ => None
  end.

Definition pick_groupBy (c : QueryBuilder.Call) : option (list string) :=
  match c with
  | QueryBuilder.CGroupBy fs => Some fs
  | _ => None
  end.

(** ** More of the router ([synqra.ts]) *)

(** A registration call on a router. *)
Inductive Registration : Type :=
| RegAdapter (name : string) (adapter : Adapter)
| RegObserver (observer : QueryObserver).

Definition register (db : Synqra.t) (r : Registration) : Synqra.t :=
  match r with
  | RegAdapter name adapter => Synqra.addAdapter name adapter db
  | RegObserver observer => Synqra.addObserver observer db
  end.

(** [new Synqra(primary)] followed by registration calls. *)
Definition configured (primary : Adapter) (regs : list Registration) : Synqra.t :=
  fold_left register regs (Synqra.new primary).

(** The steps of [Synqra.transaction] on the write backend. *)
Inductive TxStep : Type := TxBegin | TxCallback | TxCommit | TxRollback.

(** The [catch] block: roll back, then rethrow; a rollback that throws
    takes the place of the error caught. *)
Definition rollback_and_rethrow (steps : list TxStep) (rollback : result unit) (err : Error)
  : list TxStep * result unit :=
  ((steps ++ [TxRollback])%list,
   match rollback with
   | Throw e => Throw e
   | Ok _ => Throw err
   end).

(** [transaction(callback)], given how each awaited call ends. *)
Definition transaction (begin callback commit rollback : result unit)
  : list TxStep * result unit :=
  match begin with
  | Throw err => rollback_and_rethrow [TxBegin] rollback err
  | Ok _ =>
      match callback with
      | Throw err => rollback_and_rethrow [TxBegin; TxCallback] rollback err
      | Ok _ =>
          match commit with
          | Throw err => rollback_and_rethrow [TxBegin; TxCallback; TxCommit] rollback err
          | Ok _ => ([TxBegin; TxCallback; TxCommit], Ok tt)
          end
      end
  end.

Definition succeeded (r : result unit) : bool :=
  match r with Ok _ => true | Throw _ => false end.

(** The event of each observer call, in registration order. *)
Definition observer_events (n : nat) : list Event := map EvObserve (seq 0 n).

Definition replica_db : Synqra.t :=
  Synqra.addAdapter "replica"
    (postgres "replica-pg" PostgresAdapter.capabilities no_rows) plain_db.

Definition failing_observer : QueryObserver :=
  fun _ _ _ => Throw (BackendError "metrics sink unavailable").

(** ** Defaults ([core/schema.ts]) *)

Definition defaultOf (def : FieldDef) : option value :=
  match def with
  | FieldSpec _ default _ => default
  | FieldType _ => None
  end.

(** The members every object inherits from [Object.prototype]. *)
Definition Object_prototype : list string :=
  ["constructor"; "__defineGetter__"; "__defineSetter__"; "hasOwnProperty";
   "__lookupGetter__"; "__lookupSetter__"; "isPrototypeOf";
   "propertyIsEnumerable"; "toString"; "valueOf"; "__proto__";
   "toLocaleString"].

Definition inherits (chain : list string) (k : string) : bool :=
  existsb (String.eqb k) chain.

(** [applyDefaults]: a field that is declared with a default gets it when
    [result[field]] is [undefined], that is when the data has no entry for
    it and the field does not name an inherited member either.  A default
    given as a function stands here for the value its call returns. *)
Definition applyDefaults (data : list (string * value))
    (definition : list (string * FieldDef)) : list (string * value) :=
  let result := data in
  fold_left
    (fun result fd =>
       let '(field, fieldDef) := fd in
       match obj_get result field with
       | None =>
           if inherits Object_prototype field then result
           else
             match defaultOf fieldDef with
             | Some default => obj_set result field default
             | None => result
             end
       | Some _ => result
       end)
    definition result.

(** The default a definition declares for a field: that of the first
    declaration of the field that has one. *)
Fixpoint declared_default (definition : list (string * FieldDef)) (k : string)
  : option value :=
  match definition with
  | [] => None
  | (k', fd) :: rest =>
      if String.eqb k' k then
        match defaultOf fd with
        | Some d => Some d
        | None => declared_default rest k
        end
      else declared_default rest k
  end.

(** ** Models ([core/model.ts])

    The queries the static and instance methods of [Model] build before
    they hand them to the adapter; the schema is taken to be set, and
    [parse] stands for the schema validator. *)

Module Model.

(** The operator of a nested filter key; any other key reads as [eq]. *)
Definition operatorOf (op : string) : Operator :=
  if op =? "$gt" then op_gt
  else if op =? "$lt" then op_lt
  else if op =? "$gte" then op_gte
  else if op =? "$lte" then op_lte
  else if op =? "$in" then op_in
  else op_eq.

(** The builder of [Model.find(filter)]. *)
Definition findBuilder (table : string) (filter : option (list (string * value)))
  : QueryBuilder.t :=
  let builder := QueryBuilder.new table in
  match filter with
  | Some entries =>
      fold_left
        (fun builder fv =>
           let '(field, v) := fv in
           match v with
           | VObj ops =>
               fold_left
                 (fun builder ov =>
                    let '(op, opValue) := ov in
                    QueryBuilder.where_ field (operatorOf op) opValue builder)
                 ops builder
           | _ => QueryBuilder.where_ field op_eq v builder
           end)
        entries builder
  | None => builder
  end.

Definition findQuery (table : string) (filter : option (list (string * value)))
  : QueryAST :=
  QueryBuilder.build (findBuilder table filter).

(** The loop of [Model.update] and [Model.delete] over the filter. *)
Definition eqBuilder (table : string) (filter : list (string * value)) : QueryBuilder.t :=
  fold_left
    (fun builder fv => let '(field, v) := fv in QueryBuilder.where_ field op_eq v builder)
    filter (QueryBuilder.new table).

Definition updateQuery (table : string) (filter validated : list (string * value))
  : QueryAST :=
  QueryBuilder.build (QueryBuilder.update validated (eqBuilder table filter)).

Definition deleteQuery (table : string) (filter : list (string * value)) : QueryAST :=
  QueryBuilder.build (QueryBuilder.delete (eqBuilder table filter)).

(** The members an instance inherits from its class: those of
    [Model.prototype], then those of [Object.prototype]. *)
Definition Model_prototype : list string := ["constructor"; "save"; "delete"; "toJSON"].

Definition instance_chain : list string := (Model_prototype ++ Object_prototype)%list.

(** The object [toJSON] returns: its entries with a JSON value, and the
    keys under which it holds a member of the prototype chain (a method, a
    constructor), which is no JSON value. *)
Record JsonForm : Type := mkJsonForm {
  json_values : list (string * value);
  json_members : list string
}.

Definition add_member (k : string) (ks : list string) : list string :=
  if existsb (String.eqb k) ks then ks else (ks ++ [k])%list.

(** [toJSON]: every declared field for which [this[field]] is not
    [undefined].  A field the instance has no value for still reads as the
    inherited member of its name, when there is one; and the assignment to
    [json["__proto__"]] sets the prototype of [json], it adds no entry. *)
Definition toJSON (fields : list (string * FieldDef)) (instance : list (string * value))
  : JsonForm :=
  fold_left
    (fun json fd =>
       let field := fst fd in
       if field =? "__proto__" then json
       else
         match obj_get instance field with
         | Some v => mkJsonForm (obj_set (json_values json) field v) (json_members json)
         | None =>
             if inherits instance_chain field
             then mkJsonForm (json_values json) (add_member field (json_members json))
             else json
         end)
    fields (mkJsonForm [] []).

(** The query of [save()]: an update by id when the JSON form has an id, an
    insert otherwise.  No prototype has a member named [id], so that
    [data.id] is the entry of the JSON form, if any. *)
Definition saveQuery (fields : list (string * FieldDef)) (table : string)
    (parse : JsonForm -> result (list (string * value)))
    (instance : list (string * value)) : result QueryAST :=
  let data := toJSON fields instance in
  match parse data with
  | Throw e => Throw e
  | Ok validated =>
      match obj_get (json_values data) "id" with
      | Some id =>
          Ok (QueryBuilder.build
                (QueryBuilder.update validated
                   (QueryBuilder.where_ "id" op_eq id (QueryBuilder.new table))))
      | None => Ok (QueryBuilder.build (QueryBuilder.insert validated (QueryBuilder.new table)))
      end
  end.

(** [!v] *)
Definition falsy (v : value) : bool :=
  match v with
  | VNull => true
  | VBool b => negb b
  | VNum z => (z =? 0)%Z
  | VStr s => s =? EmptyString
  | _ => false
  end.

(** The query of the instance method [delete()], or the message of the
    error it throws. *)
Definition deleteInstance (fields : list (string * FieldDef)) (table : string)
    (instance : list (string * value)) : string + QueryAST :=
  let data := toJSON fields instance in
  match obj_get (json_values data) "id" with
  | Some id =>
      if falsy id then inl "Cannot delete model without id"
      else inr (deleteQuery table [("id", id)])
  | None => inl "Cannot delete model without id"
  end.

End Model.

(** The conditions a [find] filter stands for. *)
Definition filter_conditions (filter : list (string * value)) : list Condition :=
  flat_map
    (fun fv =>
       match snd fv with
       | VObj ops => map (fun ov => mkCondition (fst fv) (Model.operatorOf (fst ov)) (snd ov)) ops
       | v => [mkCondition (fst fv) op_eq v]
       end)
    filter.

Definition equality_conditions (filter : list (string * value)) : list Condition :=
  map (fun fv => mkCondition (fst fv) op_eq (snd fv)) filter.

Definition known_operators : list string := ["$gt"; "$lt"; "$gte"; "$lte"; "$in"].

Definition declares (fields : list (string * FieldDef)) (k : string) : bool :=
  existsb (String.eqb k) (map fst fields).

(** * Properties *)

Open Scope list_scope.

(** ** Lists, texts and placeholders *)

Lemma append_nil_r (s : string) : (s ++ EmptyString)%string = s.
Proof. induction s as [|c s IH]; simpl; [reflexivity | now rewrite IH]. Qed.

Lemma append_assoc (a b c : string) : ((a ++ b) ++ c)%string = (a ++ (b ++ c))%string.
Proof. induction a as [|x a IH]; simpl; [reflexivity | now rewrite IH]. Qed.

Lemma render_app (a b : text) : render (a ++ b) = (render a ++ render b)%string.
Proof.
  induction a as [|p a IH]; simpl; [reflexivity |].
  now rewrite IH, append_assoc.
Qed.

Lemma placeholders_app (a b : text) :
  placeholders (a ++ b) = (placeholders a ++ placeholders b)%list.
Proof.
  induction a as [|[s|n] a IH]; simpl; [reflexivity | exact IH | now rewrite IH].
Qed.

Lemma placeholders_joinT (sep : text) (ts : list text) :
  placeholders sep = [] ->
  placeholders (joinT sep ts) = List.concat (map placeholders ts).
Proof.
  intros Hsep. induction ts as [|x [|y rest] IH].
  - reflexivity.
  - simpl. now rewrite app_nil_r.
  - change (joinT sep (x :: y :: rest)) with (x ++ sep ++ joinT sep (y :: rest))%list.
    rewrite !placeholders_app, Hsep, IH. reflexivity.
Qed.

Lemma length_snoc (A : Type) (l : list A) (x : A) :
  List.length (l ++ [x]) = S (List.length l).
Proof. rewrite length_app. simpl. lia. Qed.

Lemma seq_app_len (s n m : nat) : (seq s n ++ seq (s + n) m)%list = seq s (n + m).
Proof. symmetry. apply seq_app. Qed.

(** ** Objects *)

Lemma obj_get_replace (A : Type) (o : list (string * A)) (k k' : string) (v : A) :
  obj_get (obj_replace o k v) k'
  = match obj_get o k with
    | Some _ => if String.eqb k k' then Some v else obj_get o k'
    | None => obj_get o k'
    end.
Proof.
  induction o as [|[k0 v0] o IH]; simpl; [reflexivity |].
  destruct (String.eqb_spec k0 k) as [-> | Hne]; simpl.
  - destruct (String.eqb k k'); reflexivity.
  - rewrite IH. destruct (String.eqb_spec k0 k') as [-> | Hne'].
    + destruct (obj_get o k); [| reflexivity].
      destruct (String.eqb_spec k k') as [-> | _]; [now elim Hne | reflexivity].
    + reflexivity.
Qed.

Lemma obj_get_insert_index (A : Type) (o : list (string * A)) (n : N) (k k' : string)
    (v : A) :
  obj_get o k = None ->
  obj_get (obj_insert_index o n k v) k'
  = if String.eqb k k' then Some v else obj_get o k'.
Proof.
  induction o as [|[k0 v0] o IH]; simpl; intros Hk; [reflexivity |].
  destruct (String.eqb_spec k0 k) as [-> | Hne]; [discriminate |].
  destruct (array_index k0) as [n'|]; [destruct (n' <? n)%N |]; simpl;
    try reflexivity.
  rewrite (IH Hk).
  destruct (String.eqb_spec k0 k') as [-> | _]; [| reflexivity].
  destruct (String.eqb_spec k k') as [-> | _]; [now elim Hne | reflexivity].
Qed.

Lemma obj_get_snoc (A : Type) (o : list (string * A)) (k k' : string) (v : A) :
  obj_get o k = None ->
  obj_get (o ++ [(k, v)]) k' = if String.eqb k k' then Some v else obj_get o k'.
Proof.
  induction o as [|[k0 v0] o IH]; simpl; intros Hk.
  - destruct (String.eqb k k'); reflexivity.
  - destruct (String.eqb_spec k0 k) as [-> | Hne]; [discriminate |].
    rewrite (IH Hk).
    destruct (String.eqb_spec k0 k') as [-> | _]; [| reflexivity].
    destruct (String.eqb_spec k k') as [-> | _]; [now elim Hne | reflexivity].
Qed.

(** Reading after writing: the key written holds the new value, every
    other key what it held. *)
Lemma obj_get_set (A : Type) (o : list (string * A)) (k k' : string) (v : A) :
  obj_get (obj_set o k v) k' = if String.eqb k k' then Some v else obj_get o k'.
Proof.
  unfold obj_set. destruct (obj_get o k) as [v0|] eqn:Ek.
  - now rewrite obj_get_replace, Ek.
  - destruct (array_index k) as [n|].
    + now apply obj_get_insert_index.
    + now apply obj_get_snoc.
Qed.

Lemma obj_get_keys (A : Type) (o : list (string * A)) (k : string) :
  obj_get o k <> None -> In k (map fst o).
Proof.
  induction o as [|[k0 v0] o IH]; simpl; [congruence |].
  destruct (String.eqb_spec k0 k) as [-> | _]; [now left | right; auto].
Qed.

Lemma obj_get_In (A : Type) (o : list (string * A)) (k : string) :
  In k (map fst o) -> obj_get o k <> None.
Proof.
  induction o as [|[k0 v0] o IH]; simpl; [tauto |].
  intros [-> | Hin].
  - rewrite String.eqb_refl. discriminate.
  - destruct (String.eqb k0 k); [discriminate | auto].
Qed.




Lemma obj_set_over (A : Type) (k : string) (v0 v : A) (o : list (string * A)) :
  obj_set ((k, v0) :: o) k v = (k, v) :: o.
Proof. unfold obj_set. simpl. now rewrite String.eqb_refl. Qed.

Lemma fromEntries_snoc (A : Type) (es : list (string * A)) (k : string) (v : A) :
  fromEntries (es ++ [(k, v)]) = obj_set (fromEntries es) k v.
Proof. unfold fromEntries. now rewrite fold_left_app. Qed.

(** An object built from entries holds, under each key, the value of the
    last entry of that key. *)
Lemma obj_get_fold_set (A : Type) (es o : list (string * A)) (k : string) :
  obj_get (fold_left (fun o e => obj_set o (fst e) (snd e)) es o) k
  = match obj_get (rev es) k with
    | Some v => Some v
    | None => obj_get o k
    end.
Proof.
  revert o. induction es as [|[k0 v0] es IH] using rev_ind; intros o; [reflexivity |].
  rewrite fold_left_app, rev_app_distr. simpl.
  rewrite obj_get_set. rewrite String.eqb_sym.
  destruct (String.eqb k k0); [reflexivity | apply IH].
Qed.

Lemma obj_get_fromEntries (A : Type) (es : list (string * A)) (k : string) :
  obj_get (fromEntries es) k = obj_get (rev es) k.
Proof.
  unfold fromEntries. rewrite obj_get_fold_set.
  now destruct (obj_get (rev es) k).
Qed.

(** The entries [(f, g f)] of a list of keys: each key holds its value. *)
Lemma obj_get_map_keys (A : Type) (g : string -> A) (fs : list string) (k : string) :
  obj_get (map (fun f => (f, g f)) fs) k
  = if existsb (String.eqb k) fs then Some (g k) else None.
Proof.
  induction fs as [|f fs IH]; simpl; [reflexivity |].
  rewrite (String.eqb_sym k f).
  destruct (String.eqb_spec f k) as [-> | _]; [reflexivity | exact IH].
Qed.

Lemma existsb_rev (A : Type) (p : A -> bool) (xs : list A) :
  existsb p (rev xs) = existsb p xs.
Proof.
  induction xs as [|x xs IH]; simpl; [reflexivity |].
  rewrite existsb_app, IH. simpl. rewrite orb_false_r. apply orb_comm.
Qed.

Lemma obj_get_fromEntries_keys (A : Type) (g : string -> A) (fs : list string)
    (k : string) :
  obj_get (fromEntries (map (fun f => (f, g f)) fs)) k
  = if existsb (String.eqb k) fs then Some (g k) else None.
Proof.
  rewrite obj_get_fromEntries, <- map_rev, obj_get_map_keys. now rewrite existsb_rev.
Qed.

(** ** Numbers *)

(** Up to 2^53 in magnitude an integer is a double. *)
Lemma nearest_double_safe (z : Z) : (Z.abs z < 2 ^ 53)%Z -> nearest_double z = z.
Proof.
  intros H. unfold nearest_double. apply Z.ltb_lt in H. now rewrite H.
Qed.

(** From 2^53 on a double is at least 2^53. *)
Lemma nearest_double_large (a : Z) :
  (2 ^ 53 <= a)%Z -> (2 ^ 53 <= nearest_double a)%Z.
Proof.
  intros Ha. unfold nearest_double.
  assert (Hpos : (0 < a)%Z) by (assert (0 < 2 ^ 53)%Z by reflexivity; lia).
  rewrite (Z.abs_eq a) by lia.
  destruct (a <? 2 ^ 53)%Z eqn:E; [apply Z.ltb_lt in E; lia |].
  rewrite (Z.sgn_pos a Hpos), Z.mul_1_l.
  assert (Hl : (53 <= Z.log2 a)%Z) by (apply (Z.log2_le_pow2 a 53); lia).
  set (e := (Z.log2 a - 52)%Z).
  assert (He : (1 <= e)%Z) by (unfold e; lia).
  assert (Hu : (2 <= 2 ^ e)%Z).
  { change 2%Z with (2 ^ 1)%Z at 1. apply Z.pow_le_mono_r; lia. }
  assert (Hlow : (2 ^ 52 * 2 ^ e <= a)%Z).
  { rewrite <- Z.pow_add_r by lia. replace (52 + e)%Z with (Z.log2 a) by (unfold e; lia).
    apply Z.log2_spec. exact Hpos. }
  assert (Hq : (2 ^ 52 <= a / 2 ^ e)%Z).
  { apply Z.div_le_lower_bound; lia. }
  assert (Hd : (a / 2 ^ e <= div_nearest_even a (2 ^ e))%Z).
  { unfold div_nearest_even. cbv zeta.
    destruct (2 * (a mod 2 ^ e) <? 2 ^ e)%Z; [lia |].
    destruct (2 ^ e <? 2 * (a mod 2 ^ e))%Z; [lia |].
    destruct (Z.even (a / 2 ^ e)); lia. }
  assert (H52 : (0 < 2 ^ 52)%Z) by reflexivity.
  change (2 ^ 53)%Z with (2 ^ 52 * 2)%Z.
  nia.
Qed.

(** A number below 2^53 is read back from its own decimal only. *)
Lemma nearest_double_reads (v c : Z) :
  (0 <= v < 2 ^ 53)%Z -> (0 <= c)%Z -> nearest_double c = v -> c = v.
Proof.
  intros Hv Hc H. destruct (Z.lt_ge_cases c (2 ^ 53)) as [Hlt | Hge].
  - rewrite nearest_double_safe in H by (rewrite Z.abs_eq; lia). exact H.
  - pose proof (nearest_double_large Hge). lia.
Qed.

Lemma closest_reading_safe (v p c : Z) :
  (0 <= v < 2 ^ 53)%Z -> (0 <= p)%Z -> closest_reading v p = Some c -> c = v.
Proof.
  intros Hv Hp. unfold closest_reading. cbv zeta.
  assert (Hlo : (0 <= v / p * p)%Z).
  { apply Z.mul_nonneg_nonneg; [| exact Hp].
    destruct (Z.eq_dec p 0) as [-> | Hne]; [now rewrite Z.div_0_r |].
    apply Z.div_pos; lia. }
  destruct (nearest_double (v / p * p) =? v)%Z eqn:E1;
    destruct (nearest_double (v / p * p + p) =? v)%Z eqn:E2;
    try discriminate;
    try apply Z.eqb_eq in E1; try apply Z.eqb_eq in E2;
    try apply (nearest_double_reads Hv Hlo) in E1;
    try apply (nearest_double_reads Hv) in E2; try lia.
  - destruct (_ <? _)%Z; [intros H; injection H as <-; exact E1 |].
    destruct (_ <? _)%Z; [intros H; injection H as <-; exact E2 |].
    destruct (Z.even _); intros H; injection H as <-; assumption.
  - intros H; injection H as <-; exact E1.
  - intros H; injection H as <-; exact E2.
Qed.

Lemma shortest_from_safe (fuel : nat) (v p : Z) :
  (0 <= v < 2 ^ 53)%Z -> (0 <= p)%Z -> shortest_from fuel v p = v.
Proof.
  intros Hv. revert p. induction fuel as [|fuel IH]; intros p Hp; [reflexivity |].
  cbn [shortest_from]. destruct (closest_reading v p) as [c|] eqn:E.
  - exact (closest_reading_safe Hv Hp E).
  - apply IH. apply Z.div_pos; lia.
Qed.

(** Up to 2^53 a number is printed with all its digits. *)
Lemma show_Z_safe (z : Z) : (0 <= z < 2 ^ 53)%Z -> show_Z z = decimal z.
Proof.
  intros Hz. unfold show_Z, magnitude_text. cbv zeta.
  destruct (z <? 0)%Z eqn:E; [apply Z.ltb_lt in E; lia |].
  rewrite nearest_double_safe by (rewrite Z.abs_eq; lia).
  assert (Hi : is_infinite z = false).
  { unfold is_infinite. apply Z.leb_gt. rewrite Z.abs_eq by lia.
    apply Z.lt_trans with (2 ^ 53)%Z; [lia | reflexivity]. }
  rewrite Hi. unfold shortest_decimal. cbv zeta.
  rewrite shortest_from_safe; [| exact Hz |].
  - assert (H : (z <? 10 ^ 21)%Z = true).
    { apply Z.ltb_lt. apply Z.lt_trans with (2 ^ 53)%Z; [lia | reflexivity]. }
    now rewrite H.
  - apply Z.pow_nonneg. lia.
Qed.

Lemma number_text_examples :
  show_Z 10 = "10"%string
  /\ show_Z (-5) = "-5"%string
  /\ show_Z (2 ^ 53) = "9007199254740992"%string
  /\ show_Z (2 ^ 64) = "18446744073709552000"%string
  /\ show_Z (10 ^ 21) = "1e+21"%string
  /\ show_Z (2 ^ 70) = "1.1805916207174113e+21"%string
  /\ show_Z (2 ^ 1024) = "Infinity"%string.
Proof. vm_compute. repeat split. Qed.


Lemma map_values_binds (A : Type) (f : A -> list value -> text * list value)
    (lit : A -> list value) (xs : list A) :
  Forall (binds f lit) xs ->
  forall values,
    snd (map_values f xs values) = (values ++ flat_map lit xs)%list
    /\ List.concat (map placeholders (fst (map_values f xs values)))
       = seq (S (List.length values)) (List.length (flat_map lit xs)).
Proof.
  induction 1 as [|x xs Hx _ IH]; intros values; simpl.
  - rewrite app_nil_r. split; reflexivity.
  - destruct (Hx values) as [Hv Hp].
    destruct (f x values) as [t values1] eqn:Ef. simpl in Hv, Hp.
    destruct (IH values1) as [Hv' Hp'].
    destruct (map_values f xs values1) as [ts values2] eqn:Em. simpl in *.
    subst values1. split.
    + rewrite Hv'. now rewrite app_assoc.
    + rewrite Hp, Hp'. rewrite !length_app.
      rewrite <- seq_app_len. f_equal.
Qed.

Lemma LogicalCondition_nested_ind (P : LogicalCondition -> Prop) :
  (forall c, P (Cond c)) ->
  (forall ty children, Forall P children -> P (Group ty children)) ->
  forall c, P c.
Proof.
  intros HC HG. fix IH 1. intros [c0 | ty children].
  - apply HC.
  - apply HG. induction children as [|x rest IHrest]; constructor.
    + apply IH.
    + exact IHrest.
Qed.

(** ** The relational WHERE clause *)

Lemma push_placeholder_binds (v : value) :
  binds PostgresAdapter.push_placeholder (fun v => [v]) v.
Proof.
  intros values. unfold PostgresAdapter.push_placeholder. simpl.
  rewrite length_app. simpl. split; [reflexivity | f_equal; lia].
Qed.

Lemma flat_map_singleton (A : Type) (l : list A) : flat_map (fun v => [v]) l = l.
Proof. induction l; simpl; congruence. Qed.

Lemma buildCondition_scalar (c : Condition) (values : list value) :
  (operator c = op_in -> isArray (cvalue c) = false) ->
  PostgresAdapter.buildCondition c values
  = ([Txt (field c); Txt " "; Txt (PostgresAdapter.mapOperator (operator c)); Txt " ";
      Ph (S (List.length values))],
     (values ++ [cvalue c])%list).
Proof.
  destruct c as [f op v]. unfold PostgresAdapter.buildCondition. simpl.
  intros H.
  destruct op; try (rewrite length_snoc; reflexivity).
  specialize (H eq_refl).
  destruct v; try (rewrite length_snoc; reflexivity). discriminate.
Qed.

Lemma buildCondition_binds (c : Condition) :
  binds PostgresAdapter.buildCondition condition_literals c.
Proof.
  intros values.
  destruct (operator c) eqn:Eop; destruct (cvalue c) as [| b | z | s | items | es] eqn:Ev;
    try (rewrite buildCondition_scalar by (rewrite Eop, ?Ev; (discriminate || reflexivity));
         unfold condition_literals; rewrite Eop, Ev; simpl; split; reflexivity).
  unfold PostgresAdapter.buildCondition, condition_literals. rewrite Eop, Ev.
  destruct items as [|v items].
  - simpl. rewrite app_nil_r. split; reflexivity.
  - assert (HF : Forall (binds PostgresAdapter.push_placeholder (fun v => [v]))
                   (v :: items)).
    { apply Forall_forall. intros x _. apply push_placeholder_binds. }
    destruct (map_values_binds HF values) as [Hv Hp].
    rewrite flat_map_singleton in Hv, Hp.
    destruct (map_values PostgresAdapter.push_placeholder (v :: items) values)
      as [ps out].
    split; [exact Hv |].
    cbn [fst snd] in *.
    rewrite !placeholders_app, placeholders_joinT by reflexivity.
    simpl. rewrite app_nil_r. exact Hp.
Qed.

Lemma buildLogicalCondition_group (ty : LogicalType) (children : list LogicalCondition)
    (values : list value) :
  children <> [] ->
  PostgresAdapter.buildLogicalCondition (Group ty children) values
  = let '(clauses, values') :=
      map_values PostgresAdapter.buildLogicalCondition children values in
    ([Txt "("] ++ joinT [Txt (" " ++ LogicalType_name ty ++ " ")%string] clauses ++ [Txt ")"],
     values').
Proof. destruct children; [congruence | reflexivity]. Qed.

Lemma buildLogicalCondition_binds (c : LogicalCondition) :
  binds PostgresAdapter.buildLogicalCondition logical_literals c.
Proof.
  induction c as [c0 | ty children IH] using LogicalCondition_nested_ind.
  - exact (buildCondition_binds c0).
  - intros values. destruct children as [|x rest].
    + simpl. rewrite app_nil_r. split; reflexivity.
    + rewrite buildLogicalCondition_group by discriminate.
      destruct (map_values_binds IH values) as [Hv Hp].
      destruct (map_values PostgresAdapter.buildLogicalCondition (x :: rest) values)
        as [clauses out].
      cbn [fst snd] in *. split; [exact Hv |].
      rewrite !placeholders_app, placeholders_joinT by reflexivity.
      simpl. rewrite app_nil_r. exact Hp.
Qed.

Lemma buildLogicalGroup_binds (g : LogicalGroup) :
  binds PostgresAdapter.buildLogicalGroup group_literals g.
Proof.
  intros values. unfold PostgresAdapter.buildLogicalGroup, group_literals.
  apply (buildLogicalCondition_binds (Group (ltype g) (lconditions g))).
Qed.

Lemma placeholders_where (clauses : list text) :
  placeholders
    (match clauses with
     | [] => []
     | _ => Txt " WHERE " :: joinT [Txt " AND "] clauses
     end)
  = List.concat (map placeholders clauses).
Proof.
  destruct clauses as [|c rest]; [reflexivity |].
  change (placeholders (Txt " WHERE " :: joinT [Txt " AND "] (c :: rest)))
    with (placeholders (joinT [Txt " AND "] (c :: rest))).
  apply placeholders_joinT. reflexivity.
Qed.

Lemma buildWhere_binds (query : QueryAST) :
  binds PostgresAdapter.buildWhere where_literals query.
Proof.
  intros values. unfold PostgresAdapter.buildWhere, where_literals.
  assert (HC : forall cs, Forall (binds PostgresAdapter.buildCondition condition_literals) cs).
  { intros cs. apply Forall_forall. intros c _. apply buildCondition_binds. }
  assert (HG : forall gs, Forall (binds PostgresAdapter.buildLogicalGroup group_literals) gs).
  { intros gs. apply Forall_forall. intros g _. apply buildLogicalGroup_binds. }
  destruct (conditions query) as [cs|]; destruct (logical query) as [gs|]; simpl app.
  - destruct (map_values_binds (HC cs) values) as [Hv Hp].
    destruct (map_values PostgresAdapter.buildCondition cs values) as [ts out].
    cbn [fst snd] in *.
    destruct (map_values_binds (HG gs) out) as [Hv' Hp'].
    destruct (map_values PostgresAdapter.buildLogicalGroup gs out) as [ts' out'].
    cbn [fst snd] in *. subst out. split.
    + rewrite Hv'. now rewrite app_assoc.
    + rewrite placeholders_where, map_app, concat_app, Hp, Hp'.
      rewrite !length_app, <- seq_app_len. reflexivity.
  - destruct (map_values_binds (HC cs) values) as [Hv Hp].
    destruct (map_values PostgresAdapter.buildCondition cs values) as [ts out].
    cbn [fst snd] in *. rewrite app_nil_r. split; [exact Hv |].
    rewrite placeholders_where. exact Hp.
  - destruct (map_values_binds (HG gs) values) as [Hv Hp].
    destruct (map_values PostgresAdapter.buildLogicalGroup gs values) as [ts out].
    cbn [fst snd] in *. split; [exact Hv |].
    rewrite placeholders_where. exact Hp.
  - simpl. rewrite app_nil_r. split; reflexivity.
Qed.

Lemma map_shift_seq (a s n : nat) : map (fun i => a + i) (seq s n) = seq (a + s) n.
Proof.
  revert s. induction n as [|n IH]; intros s; simpl; [reflexivity |].
  rewrite IH. f_equal. f_equal. lia.
Qed.


Lemma lengths_at_insertion_seq (values lits : list value) :
  lengths_at_insertion values lits = seq (S (List.length values)) (List.length lits).
Proof.
  unfold lengths_at_insertion.
  rewrite <- (Nat.add_0_r (S (List.length values))), <- map_shift_seq.
  apply map_ext_in. intros i Hi. apply in_seq in Hi.
  rewrite length_app, length_firstn. lia.
Qed.

Lemma renderAggregation_column (agg : AggregationOp) :
  PostgresAdapter.renderAggregation agg = aggregation_column agg.
Proof.
  unfold PostgresAdapter.renderAggregation, aggregation_column.
  destruct (function agg), (truthy_string (alias agg));
    cbn [AggFunction_name toUpperCase upper_name];
    rewrite ?append_assoc, ?append_nil_r; reflexivity.
Qed.

Lemma fold_left_push (A B : Type) (g : A -> B) (xs : list A) (init : list B) :
  fold_left (fun items a => items ++ [g a]) xs init = init ++ map g xs.
Proof.
  revert init. induction xs as [|x xs IH]; intros init; simpl.
  - now rewrite app_nil_r.
  - rewrite IH, <- app_assoc. reflexivity.
Qed.

Lemma selectItems_columns (query : QueryAST) :
  match aggregations query with
  | Some aggs =>
      fold_left (fun items agg => items ++ [PostgresAdapter.renderAggregation agg]) aggs
        match select query with
        | Some fields => [] ++ fields
        | None => []
        end
  | None =>
      match select query with
      | Some fields => [] ++ fields
      | None => []
      end
  end = columns_projection_first query.
Proof.
  unfold columns_projection_first, projection_list, aggregation_list.
  destruct (aggregations query) as [aggs|]; destruct (select query) as [fields|];
    rewrite ?fold_left_push, ?app_nil_r; simpl;
    try (rewrite (map_ext _ _ renderAggregation_column)); reflexivity.
Qed.

Lemma placeholders_insert (A : Type) (xs : list A) (i : nat) :
  List.concat (map placeholders (mapi_from i (fun _ j => [Ph (j + 1)]) xs))
  = seq (S i) (List.length xs).
Proof.
  revert i. induction xs as [|x xs IH]; intros i; simpl; [reflexivity |].
  rewrite IH. f_equal. lia.
Qed.

Lemma placeholders_set (xs : list string) (i : nat) :
  List.concat
    (map placeholders (mapi_from i (fun k j => [Txt (k ++ " = "); Ph (j + 1)]) xs))
  = seq (S i) (List.length xs).
Proof.
  revert i. induction xs as [|x xs IH]; intros i; simpl; [reflexivity |].
  rewrite IH. f_equal. lia.
Qed.

Lemma placeholders_snoc_txt (t : text) (s : string) :
  placeholders (t ++ [Txt s]) = placeholders t.
Proof. rewrite placeholders_app. simpl. apply app_nil_r. Qed.

Lemma buildSelect_binding (query : QueryAST) :
  snd (PostgresAdapter.buildSelect query) = where_literals query
  /\ placeholders (fst (PostgresAdapter.buildSelect query))
     = seq 1 (List.length (where_literals query)).
Proof.
  unfold PostgresAdapter.buildSelect. cbv zeta.
  rewrite selectItems_columns.
  destruct (buildWhere_binds query []) as [Hv Hp].
  destruct (PostgresAdapter.buildWhere query []) as [whereText values].
  cbn [fst snd] in *. split; [exact Hv |].
  destruct (offset query), (limit query), (orderBy query), (groupBy query),
    (columns_projection_first query);
    rewrite ?placeholders_snoc_txt; exact Hp.
Qed.

(** Whole statements: the [k]-th placeholder of a compiled statement is
    [$k], and the values are the data values (insert, update) followed by
    the literals of the WHERE clause (select, update, delete). *)
Lemma translate_binding (query : QueryAST) (t : text) (vals : list value) :
  PostgresAdapter.translate query = Ok (t, vals) ->
  placeholders t = seq 1 (List.length vals)
  /\ match type query with
     | q_select | q_delete => vals = where_literals query
     | q_update =>
         exists d, data query = Some d /\ vals = map snd d ++ where_literals query
     | q_insert => exists d, data query = Some d /\ vals = map snd d
     end.
Proof.
  unfold PostgresAdapter.translate. destruct (type query).
  - intros H. destruct (buildSelect_binding query) as [Hv Hp].
    rewrite <- Hv in Hp. injection H as Ht. rewrite Ht in Hv, Hp. cbn [fst snd] in *.
    subst vals. split; [exact Hp | reflexivity].
  - unfold PostgresAdapter.buildInsert. destruct (data query) as [d|]; [| discriminate].
    intros H. injection H as <- <-. split; [| eauto].
    cbn [app placeholders].
    rewrite placeholders_app, placeholders_joinT by reflexivity.
    rewrite placeholders_insert, !length_map. simpl. now rewrite app_nil_r.
  - unfold PostgresAdapter.buildUpdate. destruct (data query) as [d|]; [| discriminate].
    destruct (buildWhere_binds query (map snd d)) as [Hv Hp].
    destruct (PostgresAdapter.buildWhere query (map snd d)) as [whereText values].
    cbn [fst snd] in *. intros H. injection H as <- <-. split; [| eauto].
    cbn [app placeholders].
    rewrite placeholders_app, placeholders_joinT by reflexivity.
    rewrite placeholders_set, Hp, Hv, !length_app, !length_map.
    rewrite <- seq_app_len. reflexivity.
  - unfold PostgresAdapter.buildDelete.
    destruct (buildWhere_binds query []) as [Hv Hp].
    destruct (PostgresAdapter.buildWhere query []) as [whereText values].
    cbn [fst snd] in *. intros H. injection H as <- <-.
    split; [| exact Hv]. cbn [app placeholders]. rewrite Hp, Hv. reflexivity.
Qed.

(** C2.  Placeholder binding of the relational compiler.  Whatever the
    query and whatever the value list already holds, the WHERE builder
    appends the literal condition values in depth-first, left-to-right
    order (flat conditions, then logical groups, nested groups in place),
    and the placeholders it writes are, left to right, the lengths of the
    value list at the moment each value went in.  In a compiled statement
    the placeholders are therefore $1, $2, ... up to the number of values,
    and the values are exactly the literals of the conditions in that
    order: alone for a select and a delete, after the data values for an
    update (an insert binds its data values only).
    For [WHERE age > 18 AND (status = 'active' OR status = 'pending')] the
    values are [18, 'active', 'pending'] and the text carries $1, $2, $3
    in that order. *)
Theorem placeholder_binding :
  (forall (query : QueryAST) (values : list value),
      snd (PostgresAdapter.buildWhere query values) = values ++ where_literals query
      /\ placeholders (fst (PostgresAdapter.buildWhere query values))
         = lengths_at_insertion values (where_literals query))
  /\ (forall (query : QueryAST) (t : text) (vals : list value),
         PostgresAdapter.translate query = Ok (t, vals) ->
         placeholders t = seq 1 (List.length vals)
         /\ match type query with
            | q_select | q_delete => vals = where_literals query
            | q_update =>
                exists d,
                  data query = Some d /\ vals = map snd d ++ where_literals query
            | q_insert => exists d, data query = Some d /\ vals = map snd d
            end)
  /\ (exists t,
        PostgresAdapter.translate q_adults
        = Ok (t, [VNum 18; VStr "active"; VStr "pending"])
        /\ placeholders t = [1; 2; 3]
        /\ render t
           = "SELECT * FROM users WHERE age > $1 AND (status = $2 OR status = $3)"%string).
Proof.
  split; [| split].
  - intros query values. rewrite lengths_at_insertion_seq.
    apply buildWhere_binds.
  - intros query t vals H. apply (translate_binding query H).
  - eexists. split; [reflexivity |]. split; reflexivity.
Qed.

Lemma placeholder_binding_witness :
  exists t,
    PostgresAdapter.translate q_adults = Ok (t, [VNum 18; VStr "active"; VStr "pending"])
    /\ placeholders t = seq 1 3
    /\ [VNum 18; VStr "active"; VStr "pending"] = where_literals q_adults.
Proof.
  eexists. split; [reflexivity |].
  exact (proj1 (proj2 placeholder_binding) q_adults _ _ eq_refl).
Defined.

(** ** The capability validator *)

(** C3.  Validation throws a [CapabilityError] exactly when the aggregation
    flag is off and the query has a non-empty [aggregations] or [groupBy]
    list; it has no other outcome than that error or success, and with the
    flag on the same query is accepted. *)
Theorem capability_gate (query : QueryAST) (capabilities : AdapterCapabilities) :
  ((exists msg, validateQuery query capabilities = Throw (CapabilityError msg))
   <-> (supportsAggregation capabilities = false
        /\ (non_empty (aggregations query) = true \/ non_empty (groupBy query) = true)))
  /\ (validateQuery query capabilities = Ok true
      \/ exists msg, validateQuery query capabilities = Throw (CapabilityError msg))
  /\ validateQuery query (withAggregation true capabilities) = Ok true.
Proof.
  unfold validateQuery, non_empty. simpl.
  destruct (supportsAggregation capabilities); simpl.
  - split; [split | split].
    + intros [msg Hm]. discriminate Hm.
    + intros [Hf _]. discriminate Hf.
    + now left.
    + reflexivity.
  - destruct (aggregations query) as [[|a aggs]|];
      destruct (groupBy query) as [[|g gs]|];
      (split;
       [split;
        [intros [msg Hm]; try discriminate Hm;
         (split; [reflexivity | (left; reflexivity) || (right; reflexivity)])
        |intros [_ [Hn | Hn]]; try discriminate Hn; eexists; reflexivity]
       |split; [(left; reflexivity) || (right; eexists; reflexivity) | reflexivity]]).
Qed.

Lemma capability_gate_witness :
  (exists msg,
      validateQuery q_count_sales (withAggregation false PostgresAdapter.capabilities)
      = Throw (CapabilityError msg))
  /\ validateQuery q_count_sales PostgresAdapter.capabilities = Ok true.
Proof.
  split.
  - apply (proj1 (capability_gate q_count_sales
                    (withAggregation false PostgresAdapter.capabilities))).
    split; [reflexivity | left; reflexivity].
  - exact (proj2 (proj2 (capability_gate q_count_sales PostgresAdapter.capabilities))).
Defined.

(** ** The builder *)

Lemma chain_snoc (table : string) (calls : list QueryBuilder.Call) (c : QueryBuilder.Call) :
  QueryBuilder.chain table (calls ++ [c])
  = QueryBuilder.call (QueryBuilder.chain table calls) c.
Proof. unfold QueryBuilder.chain. now rewrite fold_left_app. Qed.

(** A builder in insert or update mode holds data, after any calls. *)
Lemma chain_mode_data (table : string) (calls : list QueryBuilder.Call) :
  let b := QueryBuilder.chain table calls in
  QueryBuilder.mode b = q_insert \/ QueryBuilder.mode b = q_update ->
  QueryBuilder.data b <> None.
Proof.
  induction calls as [|c calls IH] using rev_ind.
  - simpl. intros [H | H]; discriminate.
  - rewrite chain_snoc. simpl in *.
    destruct c; simpl; try exact IH; try discriminate.
    intros [H | H]; discriminate.
Qed.

(** The kind of the built query is decided by the last mode call. *)
Lemma build_kind_data (b : QueryBuilder.t) :
  type (QueryBuilder.build b) = QueryBuilder.mode b
  /\ data (QueryBuilder.build b) = QueryBuilder.data b.
Proof. split; reflexivity. Qed.

Lemma chain_mode (table : string) (calls : list QueryBuilder.Call) :
  QueryBuilder.mode (QueryBuilder.chain table calls) = last_mode calls.
Proof.
  induction calls as [|c calls IH] using rev_ind; [reflexivity |].
  rewrite chain_snoc. unfold last_mode in *. rewrite fold_left_app. simpl.
  rewrite <- IH. destruct c; reflexivity.
Qed.

Lemma chain_data (table : string) (calls : list QueryBuilder.Call) :
  QueryBuilder.data (QueryBuilder.chain table calls) = last_payload calls.
Proof.
  induction calls as [|c calls IH] using rev_ind; [reflexivity |].
  rewrite chain_snoc. unfold last_payload in *. rewrite fold_left_app. simpl.
  rewrite <- IH. destruct c; reflexivity.
Qed.

(** C10, as the code has it.  The built query has the kind of the last
    mode call (select when there is none) and, as data, the argument of the
    last [insert] or [update] call, whatever came after it.  So a query of
    kind insert or update always has data, and [delete()] after
    [insert(data)] or [update(data)] gives kind delete with that data. *)
Theorem builder_kind_and_data (table : string) (calls : list QueryBuilder.Call) :
  let ast := QueryBuilder.build (QueryBuilder.chain table calls) in
  type ast = last_mode calls
  /\ data ast = last_payload calls
  /\ (type ast = q_insert \/ type ast = q_update -> data ast <> None)
  /\ (forall d,
         let ast' :=
           QueryBuilder.build
             (QueryBuilder.chain table (calls ++ [QueryBuilder.CInsert d; QueryBuilder.CDelete])) in
         type ast' = q_delete /\ data ast' = Some d)
  /\ (forall d,
         let ast' :=
           QueryBuilder.build
             (QueryBuilder.chain table (calls ++ [QueryBuilder.CUpdate d; QueryBuilder.CDelete])) in
         type ast' = q_delete /\ data ast' = Some d).
Proof.
  cbv zeta. destruct (build_kind_data (QueryBuilder.chain table calls)) as [Ht Hd].
  split; [now rewrite Ht, chain_mode |].
  split; [now rewrite Hd, chain_data |].
  split; [rewrite Ht, Hd; apply chain_mode_data |].
  split; intros d.
  - destruct (build_kind_data
                (QueryBuilder.chain table
                   (calls ++ [QueryBuilder.CInsert d; QueryBuilder.CDelete])))
      as [Ht' Hd'].
    rewrite Ht', Hd', chain_mode, chain_data.
    unfold last_mode, last_payload. rewrite !fold_left_app. split; reflexivity.
  - destruct (build_kind_data
                (QueryBuilder.chain table
                   (calls ++ [QueryBuilder.CUpdate d; QueryBuilder.CDelete])))
      as [Ht' Hd'].
    rewrite Ht', Hd', chain_mode, chain_data.
    unfold last_mode, last_payload. rewrite !fold_left_app. split; reflexivity.
Qed.

Lemma builder_kind_and_data_witness :
  type (QueryBuilder.build (QueryBuilder.chain "users" [QueryBuilder.CInsert alice]))
  = q_insert
  /\ data (QueryBuilder.build (QueryBuilder.chain "users" [QueryBuilder.CInsert alice]))
     <> None.
Proof.
  split; [reflexivity |].
  apply (proj1 (proj2 (proj2
           (builder_kind_and_data "users" [QueryBuilder.CInsert alice])))).
  left. reflexivity.
Defined.

(** C10 as worded fails: after [insert(data).delete()] the query is a
    delete and still has data. *)
Lemma delete_keeps_data_counterexample :
  ~ data_iff_write
      (QueryBuilder.build
         (QueryBuilder.chain "users"
            [QueryBuilder.CInsert alice; QueryBuilder.CDelete])).
Proof.
  unfold data_iff_write. simpl. intros [H _].
  destruct H as [H | H]; discriminate.
Qed.

(** ** The [in] operator *)

Lemma map_values_push (items values : list value) :
  map_values PostgresAdapter.push_placeholder items values
  = (map (fun n => [Ph n]) (seq (S (List.length values)) (List.length items)),
     values ++ items).
Proof.
  revert values. induction items as [|v items IH]; intros values.
  - simpl. now rewrite app_nil_r.
  - cbn [map_values]. unfold PostgresAdapter.push_placeholder at 1.
    fold (map_values PostgresAdapter.push_placeholder).
    rewrite IH, length_snoc, <- app_assoc. reflexivity.
Qed.

(** C4.  [field IN []] compiles to the contradiction [1=0] with nothing
    appended to the value list, and to the document filter
    [{field: {$in: []}}], which no document satisfies whatever matching a
    single candidate means; a non-empty array compiles to
    [field IN ($n, $n+1, ...)] with one placeholder per element, numbered
    from the length of the value list on, the elements appended in order. *)
Theorem empty_in_contradiction (f : string) :
  (forall values,
      PostgresAdapter.buildCondition (mkCondition f op_in (VArr [])) values
      = ([Txt "1=0"], values))
  /\ MongoAdapter.buildCondition (mkCondition f op_in (VArr []))
     = VObj [(f, VObj [("$in"%string, VArr [])])]
  /\ (forall (Document : Type) (matches_value : Document -> string -> value -> bool)
             (doc : Document),
         satisfies_in matches_value
           (MongoAdapter.buildCondition (mkCondition f op_in (VArr []))) doc
         = Some false)
  /\ (forall v items values,
         PostgresAdapter.buildCondition (mkCondition f op_in (VArr (v :: items))) values
         = ([Txt f; Txt " IN ("]
              ++ joinT [Txt ", "]
                   (map (fun n => [Ph n])
                      (seq (S (List.length values)) (List.length (v :: items))))
              ++ [Txt ")"],
            values ++ v :: items)).
Proof.
  repeat split.
  intros v items values. unfold PostgresAdapter.buildCondition.
  cbn [operator cvalue field]. rewrite map_values_push. reflexivity.
Qed.

(** The scalar case of [in] in the relational compiler: the general branch
    is taken and the operator is written without a parenthesised list. *)
Lemma buildCondition_in_scalar (f : string) (v : value) (values : list value) :
  isArray v = false ->
  render (fst (PostgresAdapter.buildCondition (mkCondition f op_in v) values))
  = (f ++ " IN $" ++ show_nat (S (List.length values)))%string.
Proof.
  intros H. rewrite buildCondition_scalar by (intros _; exact H).
  simpl. now rewrite append_nil_r.
Qed.

(** C1, at the input where the two compilers part.  For [status in "active"]
    with a scalar value the document compiler wraps the scalar and emits
    the same filter as for the array ["active"], while the relational
    compiler emits [status IN $1], not the list form [status IN ($1)] it
    emits for the array. *)
Theorem scalar_in_lowered_forms :
  MongoAdapter.plan (q_status_in (VStr "active"))
  = MongoAdapter.plan (q_status_in (VArr [VStr "active"]))
  /\ plan_filter (MongoAdapter.plan (q_status_in (VStr "active")))
     = Some (VObj [("status"%string, VObj [("$in"%string, VArr [VStr "active"])])])
  /\ PostgresAdapter.plan (q_status_in (VStr "active"))
     = Ok (mkPlan plan_sql (Some "SELECT * FROM users WHERE status IN $1"%string)
             (Some [VStr "active"]) None None None None)
  /\ PostgresAdapter.plan (q_status_in (VArr [VStr "active"]))
     = Ok (mkPlan plan_sql (Some "SELECT * FROM users WHERE status IN ($1)"%string)
             (Some [VStr "active"]) None None None None).
Proof. repeat split. Qed.

(** ** The aggregation pipeline *)

Lemma fold_left_map_ext (A B C : Type) (f : C -> A -> C) (g : C -> B -> C) (h : A -> B)
    (xs : list A) (c : C) :
  (forall c a, f c a = g c (h a)) ->
  fold_left f xs c = fold_left g (map h xs) c.
Proof.
  intros H. revert c. induction xs as [|x xs IH]; intros c; simpl; [reflexivity |].
  now rewrite H, IH.
Qed.

Lemma keys_buildFilter_match (filter : value) :
  (if (0 <? List.length (keys filter))%nat
   then [VObj [("$match"%string, filter)]] else [])
  = match_stage filter.
Proof. destruct filter as [| | | | |[|e es]]; reflexivity. Qed.

Lemma group_stage_built (query : QueryAST) :
  let groupStage := [("_id"%string, VNull)] in
  let groupStage :=
    match groupBy query with
    | Some fields =>
        if (0 <? List.length fields)%nat then
          if (List.length fields =? 1)%nat
          then obj_set groupStage "_id" (VStr ("$" ++ hd EmptyString fields))
          else
            obj_set groupStage "_id"
              (VObj (fold_left (fun id f => obj_set id f (VStr ("$" ++ f))) fields []))
        else groupStage
    | None => groupStage
    end in
  groupStage = [("_id"%string, group_key query)].
Proof.
  unfold group_key, fromEntries, field_ref.
  destruct (groupBy query) as [[|f [|g rest]]|]; try reflexivity.
  cbn [List.length Nat.ltb Nat.leb Nat.eqb]. rewrite obj_set_over.
  cbv zeta. f_equal. f_equal. f_equal.
  apply fold_left_map_ext with (h := fun f => (f, VStr ("$" ++ f))). reflexivity.
Qed.

Lemma sort_key_built (query : QueryAST) (o : OrderBy) :
  match groupBy query with
  | Some fields =>
      if existsb (String.eqb (ofield o)) fields
      then if (List.length fields =? 1)%nat then "_id"%string
           else ("_id." ++ ofield o)%string
      else ofield o
  | None => ofield o
  end = sort_key query o.
Proof.
  unfold sort_key. destruct (groupBy query) as [[|f [|g rest]]|]; reflexivity.
Qed.

Lemma buildAggregatePipeline_stages (query : QueryAST) (filter : value) :
  MongoAdapter.buildAggregatePipeline query filter = pipeline_stages query filter.
Proof.
  unfold MongoAdapter.buildAggregatePipeline, pipeline_stages. cbv zeta.
  pose proof (group_stage_built query) as HG. cbv zeta in HG. rewrite HG. clear HG.
  rewrite !app_nil_l, keys_buildFilter_match.
  assert (HS : match aggregations query with
               | Some aggs =>
                   fold_left (fun o e => obj_set o (fst e) (snd e))
                     (map accumulator aggs) [("_id"%string, group_key query)]
               | None => [("_id"%string, group_key query)]
               end
               = fromEntries
                   (("_id"%string, group_key query)
                      :: map accumulator
                           (match aggregations query with
                            | Some aggs => aggs
                            | None => []
                            end))).
  { destruct (aggregations query); reflexivity. }
  unfold group_stage, group_document, group_entries, aggregation_ops,
    sort_stage, skip_stage, limit_stage.
  rewrite <- HS. clear HS.
  destruct (aggregations query) as [aggs|].
  - rewrite (@fold_left_map_ext _ _ _ _ (fun o e => obj_set o (fst e) (snd e)) accumulator).
    2:{ intros c a. unfold accumulator, out_field, field_ref.
        destruct (function a); reflexivity. }
    destruct (limit query), (offset query), (orderBy query) as [o|];
      rewrite ?sort_key_built, <- ?app_assoc, ?app_nil_r;
      try destruct (direction o); reflexivity.
  - destruct (limit query), (offset query), (orderBy query) as [o|];
      rewrite ?sort_key_built, <- ?app_assoc, ?app_nil_r;
      try destruct (direction o); reflexivity.
Qed.








(** ** The SELECT statement *)


Lemma render_joinT (sep : string) (ts : list text) :
  render (joinT [Txt sep] ts) = join sep (map render ts).
Proof.
  induction ts as [|x [|y rest] IH]; [reflexivity | reflexivity |].
  change (joinT [Txt sep] (x :: y :: rest))
    with (x ++ [Txt sep] ++ joinT [Txt sep] (y :: rest)).
  rewrite !render_app, IH. simpl. rewrite append_nil_r. reflexivity.
Qed.

Lemma map_values_length (A : Type) (f : A -> list value -> text * list value)
    (xs : list A) (values : list value) :
  List.length (fst (map_values f xs values)) = List.length xs.
Proof.
  revert values. induction xs as [|x xs IH]; intros values; [reflexivity |].
  cbn [map_values]. destruct (f x values) as [t values1].
  specialize (IH values1).
  fold (map_values f) in *. destruct (map_values f xs values1) as [ts values2].
  simpl in *. now rewrite IH.
Qed.

Lemma render_snoc (t : text) (s : string) : render (t ++ [Txt s]) = (render t ++ s)%string.
Proof. rewrite render_app. simpl. now rewrite append_nil_r. Qed.

Lemma buildSelect_statement (query : QueryAST) :
  render (fst (PostgresAdapter.buildSelect query))
  = select_statement (columns_projection_first query) query.
Proof.
  unfold PostgresAdapter.buildSelect, select_statement, where_clause. cbv zeta.
  rewrite selectItems_columns.
  destruct (PostgresAdapter.buildWhere query []) as [whereText values]. cbn [fst].
  unfold group_by_clause, order_by_clause, limit_clause, offset_clause.
  generalize (columns_projection_first query). intros cols.
  destruct (offset query), (limit query), (orderBy query) as [o|],
    (groupBy query), cols;
    rewrite ?render_snoc, ?render_app; cbn [render fold_right render_piece];
    try destruct (direction o); cbn [Direction_name toUpperCase];
    rewrite ?append_nil_r, ?append_assoc; reflexivity.
Qed.

Lemma map_values_nil (A : Type) (f : A -> list value -> text * list value)
    (values : list value) :
  map_values f [] values = ([], values).
Proof. reflexivity. Qed.

(** The WHERE text: nothing without clauses, otherwise [ WHERE ] and the
    clauses joined by [ AND ]. *)
Lemma where_clause_clauses (query : QueryAST) :
  where_clause query
  = match where_clauses query with
    | [] => EmptyString
    | clauses => (" WHERE " ++ join " AND " (map render clauses))%string
    end.
Proof.
  unfold where_clause, where_clauses, PostgresAdapter.buildWhere. cbv zeta.
  destruct (conditions query) as [cs|]; rewrite ?map_values_nil.
  - destruct (map_values PostgresAdapter.buildCondition cs []) as [ts values].
    destruct (logical query) as [gs|]; rewrite ?map_values_nil; cbn [fst snd app].
    + destruct (map_values PostgresAdapter.buildLogicalGroup gs values) as [ts' values'].
      cbn [fst snd]. destruct (ts ++ ts') as [|c cl]; [reflexivity |].
      cbn [render fold_right render_piece]. fold (render (joinT [Txt " AND "] (c :: cl))).
      now rewrite render_joinT.
    + rewrite app_nil_r. destruct ts as [|c cl]; [reflexivity |].
      cbn [render fold_right render_piece]. fold (render (joinT [Txt " AND "] (c :: cl))).
      now rewrite render_joinT.
  - destruct (logical query) as [gs|]; rewrite ?map_values_nil; cbn [fst snd app];
      [| reflexivity].
    destruct (map_values PostgresAdapter.buildLogicalGroup gs []) as [ts' values'].
    cbn [fst snd]. destruct ts' as [|c cl]; [reflexivity |].
    cbn [render fold_right render_piece]. fold (render (joinT [Txt " AND "] (c :: cl))).
    now rewrite render_joinT.
Qed.

Lemma where_clauses_length (query : QueryAST) :
  List.length (where_clauses query) = clause_count query.
Proof.
  unfold where_clauses, clause_count.
  pose proof (map_values_length PostgresAdapter.buildCondition
                (match conditions query with Some cs => cs | None => [] end) []) as Hc.
  destruct (map_values PostgresAdapter.buildCondition
              (match conditions query with Some cs => cs | None => [] end) [])
    as [ts values].
  cbn [fst] in Hc. now rewrite length_app, map_values_length, Hc.
Qed.

(** C7, as the code has it.  A select compiles to [SELECT <cols> FROM
    <table>] where [<cols>] is the projection list followed by the rendered
    aggregations ([FUNC(field)], upper-cased, with [ AS alias] when an alias
    is set), or [*] when that list is empty; then WHERE, GROUP BY, ORDER BY,
    LIMIT and OFFSET follow in this order, each only when its field is
    present: the WHERE text is there exactly when the query has a condition
    or a logical group, and is then [ WHERE ] followed by their clauses
    joined by [ AND ]; the values are the literals of the WHERE clause. *)
Theorem select_statement_shape (query : QueryAST) :
  render (fst (PostgresAdapter.buildSelect query))
  = select_statement (columns_projection_first query) query
  /\ snd (PostgresAdapter.buildSelect query) = where_literals query
  /\ where_clause query
     = match where_clauses query with
       | [] => EmptyString
       | clauses => (" WHERE " ++ join " AND " (map render clauses))%string
       end
  /\ List.length (where_clauses query) = clause_count query.
Proof.
  split; [apply buildSelect_statement |].
  split; [| split; [apply where_clause_clauses | apply where_clauses_length]].
  unfold PostgresAdapter.buildSelect. cbv zeta.
  destruct (buildWhere_binds query []) as [Hv _].
  destruct (PostgresAdapter.buildWhere query []) as [whereText values].
  exact Hv.
Qed.

(** C7 as worded fails: with a projection and an aggregation the compiler
    writes the projected column first, not the aggregation. *)
Lemma select_columns_order_counterexample :
  render (fst (PostgresAdapter.buildSelect q_category_total))
  = "SELECT category, SUM(amount) AS total FROM sales"%string
  /\ select_statement (columns_aggregations_first q_category_total) q_category_total
     = "SELECT SUM(amount) AS total, category FROM sales"%string
  /\ render (fst (PostgresAdapter.buildSelect q_category_total))
     <> select_statement (columns_aggregations_first q_category_total) q_category_total.
Proof.
  split; [reflexivity |]. split; [reflexivity |].
  intros H. vm_compute in H. discriminate H.
Qed.

(** ** The relational migration planner *)

Section PlanSync.
Variable DB : Type.
Variable tableCheck : DB -> string -> bool.
Variable colCheck : DB -> string -> list string.

Lemma columns_fold (fields : list (string * FieldDef)) (init : list string) :
  fold_left
    (fun columns fd =>
       let '(field, def) := fd in
       if (field =? "id")%string then columns
       else columns ++ [(dquote ++ field ++ dquote ++ " "
                           ++ PostgresAdapter.pgTypeOf def)%string])
    fields init
  = init ++ map (column_decl PostgresAdapter.pgTypeOf)
              (filter (fun fd => negb (is_id fd)) fields).
Proof.
  revert init. induction fields as [|[f d] fields IH]; intros init; simpl.
  - now rewrite app_nil_r.
  - rewrite IH. unfold is_id at 2. simpl.
    destruct (f =? "id")%string; simpl; [reflexivity |].
    now rewrite <- app_assoc.
Qed.

Lemma alter_fold (model : ModelSchema) (existing : list string)
    (fields : list (string * FieldDef)) (ops logs : list string) :
  fst (fold_left
         (fun acc fd =>
            let '(operations, logs) := acc in
            let '(field, def) := fd in
            if (field =? "id")%string || existsb (String.eqb field) existing then acc
            else
              (operations
                 ++ [("ALTER TABLE " ++ dquote ++ schema_table model ++ dquote
                        ++ " ADD COLUMN " ++ dquote ++ field ++ dquote ++ " "
                        ++ PostgresAdapter.pgTypeOf def ++ ";")%string],
               logs ++ [("[Postgres] Planner appended column: " ++ field ++ " on "
                           ++ schema_table model)%string]))
         fields (ops, logs))
  = ops ++ map (add_column PostgresAdapter.pgTypeOf model)
             (filter (fun fd => negb (is_id fd || existsb (String.eqb (fst fd)) existing))
                fields).
Proof.
  revert ops logs. induction fields as [|[f d] fields IH]; intros ops logs; simpl.
  - now rewrite app_nil_r.
  - unfold is_id at 1. simpl.
    destruct ((f =? "id")%string || existsb (String.eqb f) existing); simpl.
    + apply IH.
    + rewrite IH, <- app_assoc. simpl. f_equal. f_equal.
      unfold add_column, column_decl. cbn [fst snd].
      rewrite ?append_assoc. reflexivity.
Qed.

Lemma planModel_operations (db : DB) (ops logs : list string) (model : ModelSchema) :
  fst (PostgresAdapter.planModel tableCheck colCheck db (ops, logs) model)
  = ops ++ model_operations tableCheck colCheck PostgresAdapter.pgTypeOf db model.
Proof.
  unfold PostgresAdapter.planModel, model_operations, missing_fields.
  destruct (tableCheck db (schema_table model)); simpl.
  - apply alter_fold.
  - rewrite columns_fold. unfold create_table. cbn [fst snd app].
    rewrite ?append_assoc. reflexivity.
Qed.

Lemma planSync_operations (db : DB) (models : list ModelSchema) :
  operations (PostgresAdapter.planSync tableCheck colCheck db models)
  = expected_operations tableCheck colCheck PostgresAdapter.pgTypeOf db models.
Proof.
  unfold PostgresAdapter.planSync, expected_operations.
  assert (H : forall acc,
             fst (fold_left (PostgresAdapter.planModel tableCheck colCheck db) models acc)
             = fst acc ++ flat_map
                            (model_operations tableCheck colCheck
                               PostgresAdapter.pgTypeOf db) models).
  { induction models as [|m ms IH]; intros [ops logs]; cbn [fold_left flat_map fst].
    - now rewrite app_nil_r.
    - rewrite IH, planModel_operations, <- app_assoc. reflexivity. }
  specialize (H ([], [])).
  destruct (fold_left (PostgresAdapter.planModel tableCheck colCheck db) models ([], []))
    as [ops logs].
  exact H.
Qed.

Lemma synced_no_operations (db : DB) (models : list ModelSchema) :
  synced tableCheck colCheck db models ->
  expected_operations tableCheck colCheck PostgresAdapter.pgTypeOf db models = [].
Proof.
  intros H. unfold expected_operations.
  induction models as [|m ms IH]; [reflexivity |]. simpl.
  rewrite IH by (intros m' Hin; apply H; now right).
  rewrite app_nil_r. unfold model_operations.
  destruct (H m (or_introl eq_refl)) as [Ht Hc]. rewrite Ht.
  unfold missing_fields.
  replace (filter _ (schema_fields m)) with (@nil (string * FieldDef)); [reflexivity |].
  symmetry. induction (schema_fields m) as [|fd fds IHf]; [reflexivity |]. simpl.
  destruct (is_id fd) eqn:Eid; simpl.
  - apply IHf. intros fd' Hin. apply Hc. now right.
  - assert (Hex : existsb (String.eqb (fst fd)) (colCheck db (schema_table m)) = true).
    { apply existsb_exists. exists (fst fd). split.
      - apply Hc; [now left | exact Eid].
      - apply String.eqb_refl. }
    rewrite Hex. simpl. apply IHf. intros fd' Hin. apply Hc. now right.
Qed.
End PlanSync.

(** C8, as the code has it.  The relational planner emits, for each schema
    in turn, one CREATE TABLE when its table is absent (the [id] key, then a
    column per declared non-id field) and otherwise one ADD COLUMN per
    declared non-id field that the introspected columns lack, with the types
    string to VARCHAR(255), number to FLOAT, boolean to BOOLEAN, date to
    TIMESTAMP, object and array to JSONB; against a schema set whose tables
    and columns are all there the plan has no operation. *)
Theorem relational_plan_shape (DB : Type) (tableCheck : DB -> string -> bool)
    (colCheck : DB -> string -> list string) (db : DB) (models : list ModelSchema) :
  operations (PostgresAdapter.planSync tableCheck colCheck db models)
  = expected_operations tableCheck colCheck PostgresAdapter.pgTypeOf db models
  /\ (synced tableCheck colCheck db models ->
      operations (PostgresAdapter.planSync tableCheck colCheck db models) = [])
  /\ (forall default required,
         map (fun t => PostgresAdapter.pgTypeOf (FieldSpec t default required))
           ["string"; "number"; "boolean"; "date"; "object"; "array"]%string
         = ["VARCHAR(255)"; "FLOAT"; "BOOLEAN"; "TIMESTAMP"; "JSONB"; "JSONB"]%string)
  /\ map (fun t => PostgresAdapter.pgTypeOf (FieldType t))
       ["string"; "number"; "boolean"; "date"; "object"; "array"]%string
     = ["VARCHAR(255)"; "FLOAT"; "BOOLEAN"; "TIMESTAMP"; "JSONB"; "JSONB"]%string.
Proof.
  split; [apply planSync_operations |].
  split; [| split; reflexivity].
  intros H. rewrite planSync_operations. now apply synced_no_operations.
Qed.

Lemma relational_plan_shape_witness :
  synced physical_tableCheck physical_colCheck users_synced [user_model]
  /\ operations
       (PostgresAdapter.planSync physical_tableCheck physical_colCheck
          users_synced [user_model]) = [].
Proof.
  assert (H : synced physical_tableCheck physical_colCheck users_synced [user_model]).
  { intros model [<- | []]. split; [reflexivity |].
    intros fd Hin _. simpl in Hin.
    destruct Hin as [<- | [<- | [<- | [<- | []]]]]; simpl; auto 10. }
  split; [exact H |].
  exact (proj1 (proj2 (relational_plan_shape physical_tableCheck physical_colCheck
                         users_synced [user_model])) H).
Defined.

(** C8 as worded fails on the type table: an object field of an absent
    table is declared JSONB, not JSON. *)
Lemma object_column_counterexample :
  operations
    (PostgresAdapter.planSync physical_tableCheck physical_colCheck [] [profile_model])
  = [("CREATE TABLE " ++ dquote ++ "profiles" ++ dquote
        ++ " (id SERIAL PRIMARY KEY, " ++ dquote ++ "bio" ++ dquote ++ " VARCHAR(255), "
        ++ dquote ++ "settings" ++ dquote ++ " JSONB);")%string]
  /\ expected_operations physical_tableCheck physical_colCheck spec_column_type
       [] [profile_model]
     = [("CREATE TABLE " ++ dquote ++ "profiles" ++ dquote
           ++ " (id SERIAL PRIMARY KEY, " ++ dquote ++ "bio" ++ dquote ++ " VARCHAR(255), "
           ++ dquote ++ "settings" ++ dquote ++ " JSON);")%string]
  /\ operations
       (PostgresAdapter.planSync physical_tableCheck physical_colCheck [] [profile_model])
     <> expected_operations physical_tableCheck physical_colCheck spec_column_type
          [] [profile_model].
Proof.
  split; [reflexivity |]. split; [reflexivity |].
  intros H. vm_compute in H. discriminate H.
Qed.

(** ** Applying a plan *)

(** The document [sync] ends well and writes nothing to the console,
    whatever the driver answers. *)
Lemma mongo_sync_never_fails (DB : Type) (listCollections : DB -> list string)
    (db_command : DB -> value -> DB * result unit) (db : DB) (models : list ModelSchema) :
  outcome (MongoAdapter.sync listCollections db_command db models) = Ok tt
  /\ console (MongoAdapter.sync listCollections db_command db models) = [].
Proof. split; reflexivity. Qed.

(** The relational [sync] stops at the first statement that fails. *)
Lemma postgres_run_stops (DB : Type) (client_query : DB -> string -> DB * result unit)
    (db db' : DB) (op : string) (rest : list string) (e : Error) :
  client_query db op = (db', Throw e) ->
  PostgresAdapter.runOperations client_query db (op :: rest) = (db', Throw e).
Proof. intros H. simpl. now rewrite H. Qed.

(** C9, at the inputs where the code departs from it.  Document store: a
    driver that refuses every command (not a benign conflict) is asked to
    run both planned commands, and [sync] still ends well with nothing
    logged; this holds for every driver.  Relational: the plan is an
    ADD COLUMN followed by a CREATE TABLE, the ADD COLUMN meets a
    duplicate-column conflict, and [sync] throws it with the CREATE TABLE
    not run. *)
Theorem sync_error_handling :
  (forall (DB : Type) (listCollections : DB -> list string)
          (db_command : DB -> value -> DB * result unit) (db : DB)
          (models : list ModelSchema),
      outcome (MongoAdapter.sync listCollections db_command db models) = Ok tt
      /\ console (MongoAdapter.sync listCollections db_command db models) = [])
  /\ (let run := MongoAdapter.sync no_collections refusing_driver [] [user_model] in
      db_after run
      = operations (MongoAdapter.planSync no_collections [] [user_model])
      /\ List.length (db_after run) = 2
      /\ outcome run = Ok tt /\ console run = [])
  /\ (let plan :=
        PostgresAdapter.planSync journal_tableCheck journal_colCheck [] [user_model;
                                                                          profile_model] in
      let run :=
        PostgresAdapter.sync journal_tableCheck journal_colCheck racing_client []
          [user_model; profile_model] in
      List.length (operations plan) = 2
      /\ db_after run = firstn 1 (operations plan)
      /\ outcome run = Throw duplicate_column /\ console run = []).
Proof.
  split; [intros; apply mongo_sync_never_fails |].
  split; [repeat split | repeat split].
Qed.

(** ** The router *)






(** * Further properties of the code *)

(** ** Relational statements for writes *)

Lemma buildWhere_empty_iff (query : QueryAST) (values : list value) :
  fst (PostgresAdapter.buildWhere query values) = [] <-> clause_count query = 0.
Proof.
  unfold PostgresAdapter.buildWhere, clause_count.
  destruct (conditions query) as [cs|]; destruct (logical query) as [gs|]; cbn [app].
  - pose proof (map_values_length PostgresAdapter.buildCondition cs values) as Hc.
    destruct (map_values PostgresAdapter.buildCondition cs values) as [ts out].
    pose proof (map_values_length PostgresAdapter.buildLogicalGroup gs out) as Hg.
    destruct (map_values PostgresAdapter.buildLogicalGroup gs out) as [ts' out'].
    cbn [fst] in *.
    destruct ts, ts', cs, gs; simpl in *; try discriminate; split; intros; (reflexivity || discriminate || lia).
  - pose proof (map_values_length PostgresAdapter.buildCondition cs values) as Hc.
    destruct (map_values PostgresAdapter.buildCondition cs values) as [ts out].
    cbn [fst] in *.
    destruct ts, cs; simpl in *; try discriminate; split; intros; (reflexivity || discriminate || lia).
  - pose proof (map_values_length PostgresAdapter.buildLogicalGroup gs values) as Hg.
    destruct (map_values PostgresAdapter.buildLogicalGroup gs values) as [ts' out'].
    cbn [fst] in *.
    destruct ts', gs; simpl in *; try discriminate; split; intros; (reflexivity || discriminate || lia).
  - simpl. split; reflexivity.
Qed.

(** X1.  The relational compiler fails on exactly one kind of query: an
    insert or an update without data, where reading the keys of the missing
    data throws a TypeError.  Every other query compiles. *)
Theorem relational_plan_failure (query : QueryAST) :
  ((exists e, PostgresAdapter.plan query = Throw e)
   <-> ((type query = q_insert \/ type query = q_update) /\ data query = None))
  /\ (forall e, PostgresAdapter.plan query = Throw e -> exists msg, e = TypeError msg).
Proof.
  unfold PostgresAdapter.plan, PostgresAdapter.translate,
    PostgresAdapter.buildInsert, PostgresAdapter.buildUpdate.
  destruct (type query) eqn:Et; destruct (data query) as [d|] eqn:Ed;
    repeat match goal with
           | |- context [let '(_, _) := ?x in _] => destruct x
           | |- context [match ?x with (_, _) => _ end] => destruct x
           end;
    (split;
     [split;
      [intros [e He]; try discriminate He; (split; [auto | reflexivity])
      |intros [[Hk | Hk] Hd]; try discriminate Hk; try discriminate Hd;
       eexists; reflexivity]
     |intros e He; try discriminate He; injection He as <-; eexists; reflexivity]).
Qed.

Lemma relational_plan_failure_witness :
  exists e, PostgresAdapter.plan (blank q_insert "users") = Throw e.
Proof.
  apply (proj1 (relational_plan_failure (blank q_insert "users"))).
  split; [left |]; reflexivity.
Defined.

Lemma mapi_from_insert (A : Type) (xs : list A) (i : nat) :
  mapi_from i (fun (_ : A) j => [Ph (j + 1)]) xs
  = map (fun n => [Ph n]) (seq (S i) (List.length xs)).
Proof.
  revert i. induction xs as [|x xs IH]; intros i; simpl; [reflexivity |].
  rewrite IH. f_equal. f_equal. f_equal. lia.
Qed.

Lemma mapi_from_set (xs : list string) (i : nat) :
  map render (mapi_from i (fun k j => [Txt (k ++ " = "); Ph (j + 1)]) xs)
  = map (fun ik => (snd ik ++ " = " ++ dollar (fst ik))%string)
      (combine (seq (S i) (List.length xs)) xs).
Proof.
  revert i. induction xs as [|x xs IH]; intros i; simpl; [reflexivity |].
  rewrite IH. f_equal. unfold dollar.
  rewrite append_nil_r, append_assoc, Nat.add_1_r. reflexivity.
Qed.

Lemma render_placeholder (n : nat) : render [Ph n] = dollar n.
Proof. unfold dollar. simpl. now rewrite append_nil_r. Qed.

(** X2.  An insert with data compiles to
    [INSERT INTO t (k1, ..) VALUES ($1, ..) RETURNING *] with the data
    values, in key order, as its values: nothing else of the query (filter,
    ordering, limit) enters the statement. *)
Theorem insert_statement (query : QueryAST) (d : list (string * value)) :
  type query = q_insert ->
  data query = Some d ->
  PostgresAdapter.plan query
  = Ok (mkPlan plan_sql (Some (insert_sql (table query) d)) (Some (map snd d))
          None None None None).
Proof.
  intros Ht Hd. unfold PostgresAdapter.plan, PostgresAdapter.translate,
    PostgresAdapter.buildInsert. rewrite Ht, Hd.
  f_equal. f_equal. f_equal. unfold insert_sql.
  rewrite mapi_from_insert, !render_app, render_joinT, map_map, length_map.
  rewrite (map_ext _ _ render_placeholder).
  cbn [render fold_right render_piece].
  rewrite ?append_nil_r, ?append_assoc. reflexivity.
Qed.

Lemma insert_statement_witness :
  PostgresAdapter.plan
    (QueryBuilder.build
       (QueryBuilder.chain "users"
          [QueryBuilder.CWhere "age" op_gt (VNum 18); QueryBuilder.CInsert alice]))
  = Ok (mkPlan plan_sql (Some "INSERT INTO users (name) VALUES ($1) RETURNING *"%string)
          (Some [VStr "Alice"]) None None None None).
Proof.
  exact (@insert_statement
           (QueryBuilder.build
              (QueryBuilder.chain "users"
                 [QueryBuilder.CWhere "age" op_gt (VNum 18); QueryBuilder.CInsert alice]))
           alice eq_refl eq_refl).
Defined.

Lemma plan_update_shape (query : QueryAST) (d : list (string * value)) :
  type query = q_update ->
  data query = Some d ->
  exists whereText,
    fst (PostgresAdapter.buildWhere query (map snd d)) = whereText
    /\ PostgresAdapter.plan query
       = Ok (mkPlan plan_sql
               (Some ("UPDATE " ++ table query ++ " SET " ++ set_list d
                        ++ render whereText)%string)
               (Some (map snd d ++ where_literals query)) None None None None)
    /\ placeholders whereText
       = seq (S (List.length d)) (List.length (where_literals query)).
Proof.
  intros Ht Hd. unfold PostgresAdapter.plan, PostgresAdapter.translate,
    PostgresAdapter.buildUpdate. rewrite Ht, Hd.
  destruct (buildWhere_binds query (map snd d)) as [Hv Hp].
  destruct (PostgresAdapter.buildWhere query (map snd d)) as [whereText values].
  cbn [fst snd] in *. exists whereText. split; [reflexivity |].
  rewrite length_map in Hp. split; [| exact Hp].
  rewrite Hv. f_equal. f_equal. f_equal. unfold set_list.
  rewrite !render_app, render_joinT, mapi_from_set, length_map.
  cbn [render fold_right render_piece].
  rewrite ?append_nil_r, ?append_assoc. reflexivity.
Qed.

(** X3.  An update with data compiles to [UPDATE t SET k1 = $1, ..] followed
    by the WHERE clause built on top of the data values: the values are the
    data values followed by the filter literals, and the placeholders of the
    filter go on from the number of data values. *)
Theorem update_statement (query : QueryAST) (d : list (string * value)) :
  type query = q_update ->
  data query = Some d ->
  exists whereText,
    fst (PostgresAdapter.buildWhere query (map snd d)) = whereText
    /\ PostgresAdapter.plan query
       = Ok (mkPlan plan_sql
               (Some ("UPDATE " ++ table query ++ " SET " ++ set_list d
                        ++ render whereText)%string)
               (Some (map snd d ++ where_literals query)) None None None None)
    /\ placeholders whereText
       = seq (S (List.length d)) (List.length (where_literals query)).
Proof. exact (@plan_update_shape query d). Qed.

Lemma update_statement_witness :
  PostgresAdapter.plan
    (QueryBuilder.build
       (QueryBuilder.chain "users"
          [QueryBuilder.CWhere "age" op_gt (VNum 18); QueryBuilder.CUpdate alice]))
  = Ok (mkPlan plan_sql (Some "UPDATE users SET name = $1 WHERE age > $2"%string)
          (Some [VStr "Alice"; VNum 18]) None None None None).
Proof.
  destruct (@update_statement
              (QueryBuilder.build
                 (QueryBuilder.chain "users"
                    [QueryBuilder.CWhere "age" op_gt (VNum 18);
                     QueryBuilder.CUpdate alice]))
              alice eq_refl eq_refl) as [w [Hw [Hplan _]]].
  rewrite Hplan, <- Hw. reflexivity.
Defined.

(** X4.  The WHERE clause is left out exactly when the query has no
    top-level clause at all, and then the document filter is the empty
    document: an update or a delete built without any [where], [and] or
    [or] addresses every row of the table, in both backends. *)
Theorem unfiltered_write_addresses_all (query : QueryAST) :
  (forall values,
      fst (PostgresAdapter.buildWhere query values) = [] <-> clause_count query = 0)
  /\ (clause_count query = 0 ->
      MongoAdapter.buildFilter query = VObj []
      /\ (type query = q_delete ->
          PostgresAdapter.plan query
          = Ok (mkPlan plan_sql (Some ("DELETE FROM " ++ table query)%string) (Some [])
                  None None None None))
      /\ (forall d, type query = q_update -> data query = Some d ->
            PostgresAdapter.plan query
            = Ok (mkPlan plan_sql
                    (Some ("UPDATE " ++ table query ++ " SET " ++ set_list d)%string)
                    (Some (map snd d)) None None None None))).
Proof.
  split; [intros values; apply buildWhere_empty_iff |].
  intros H0. split; [| split].
  - unfold MongoAdapter.buildFilter. unfold clause_count in H0.
    destruct (conditions query) as [[|c cs]|], (logical query) as [[|g gs]|];
      simpl in H0; try discriminate H0; reflexivity.
  - intros Ht. unfold PostgresAdapter.plan, PostgresAdapter.translate,
      PostgresAdapter.buildDelete. rewrite Ht.
    pose proof (proj2 (buildWhere_empty_iff query []) H0) as He.
    destruct (buildWhere_binds query []) as [Hv _].
    destruct (PostgresAdapter.buildWhere query []) as [w vals]. cbn [fst snd] in *.
    subst w. rewrite Hv. unfold where_literals. unfold clause_count in H0.
    destruct (conditions query) as [[|c cs]|], (logical query) as [[|g gs]|];
      simpl in H0; try discriminate H0; simpl; now rewrite append_nil_r.
  - intros d Ht Hd. destruct (plan_update_shape query Ht Hd) as [w [Hw [Hplan _]]].
    rewrite Hplan. rewrite (proj2 (buildWhere_empty_iff query (map snd d)) H0) in Hw.
    subst w. unfold where_literals. unfold clause_count in H0.
    destruct (conditions query) as [[|c cs]|], (logical query) as [[|g gs]|];
      simpl in H0; try discriminate H0; simpl; now rewrite ?append_nil_r, ?app_nil_r.
Qed.

Lemma unfiltered_write_addresses_all_witness :
  MongoAdapter.buildFilter (blank q_delete "users") = VObj []
  /\ PostgresAdapter.plan (blank q_delete "users")
     = Ok (mkPlan plan_sql (Some "DELETE FROM users"%string) (Some [])
             None None None None).
Proof.
  destruct (proj2 (unfiltered_write_addresses_all (blank q_delete "users")) eq_refl)
    as [Hf [Hd _]].
  split; [exact Hf | exact (Hd eq_refl)].
Defined.

(** ** The document filter *)

Lemma mongo_condition_one_key (c : Condition) :
  exists k v, MongoAdapter.buildCondition c = VObj [(k, v)].
Proof. unfold MongoAdapter.buildCondition. destruct (operator c); eauto. Qed.

Lemma mongo_group_keys (g : LogicalGroup) :
  (lconditions g = [] /\ MongoAdapter.buildLogicalGroup g = VObj [])
  \/ (lconditions g <> [] /\ exists k v, MongoAdapter.buildLogicalGroup g = VObj [(k, v)]).
Proof.
  unfold MongoAdapter.buildLogicalGroup. destruct g as [ty [|c cs]]; simpl.
  - left. split; reflexivity.
  - right. split; [discriminate |]. destruct ty; eauto.
Qed.

(** X5.  The filter of the document compiler has no key, so that an
    aggregation pipeline gets no [$match] stage, in exactly two cases: the
    query has no top-level clause, or its only clause is an empty logical
    group. *)
Theorem match_stage_absent_iff (query : QueryAST) :
  match_stage (MongoAdapter.buildFilter query) = []
  <-> (clause_count query = 0 \/ only_empty_group query).
Proof.
  unfold MongoAdapter.buildFilter, clause_count, only_empty_group.
  destruct (conditions query) as [[|c [|c' cs]]|];
    destruct (logical query) as [[|g [|g' gs]]|]; cbn [app map List.length];
    try (split; [reflexivity | intros _; reflexivity]);
    try (split; [intros _; left; reflexivity | reflexivity]);
    try (destruct (mongo_condition_one_key c) as [k [v ->]]);
    try (split;
         [intros H; discriminate H
         |intros [H | [[H | H] [ty Hg]]]; simpl in H; try discriminate H;
          try lia; discriminate Hg]).
  - destruct (mongo_group_keys g) as [[He ->] | [Hne [k [v ->]]]].
    + split; [| reflexivity]. intros _. right. split; [right; reflexivity |].
      destruct g as [ty cs]. simpl in He. subst cs. eauto.
    + split; [intros H; discriminate H |].
      intros [H | [_ [ty Hg]]]; [discriminate H |].
      injection Hg as ->. now elim Hne.
  - destruct (mongo_group_keys g) as [[He ->] | [Hne [k [v ->]]]].
    + split; [| reflexivity]. intros _. right. split; [left; reflexivity |].
      destruct g as [ty cs]. simpl in He. subst cs. eauto.
    + split; [intros H; discriminate H |].
      intros [H | [_ [ty Hg]]]; [discriminate H |].
      injection Hg as ->. now elim Hne.
Qed.

Lemma match_stage_absent_iff_witness :
  match_stage
    (MongoAdapter.buildFilter
       (QueryBuilder.build (QueryBuilder.chain "sales" [QueryBuilder.COr []])))
  = [].
Proof.
  apply (proj2 (match_stage_absent_iff
                  (QueryBuilder.build (QueryBuilder.chain "sales" [QueryBuilder.COr []])))).
  right. split; [left; reflexivity | exists OR; reflexivity].
Defined.

(** X6.  For a select without grouping and aggregation the document plan is
    a find with the compiled filter, and its options mirror the clauses of
    the query one for one: [projection] is an object that holds 1 under
    each selected field and nothing else, [limit] and [skip] carry limit
    and offset, [sort] the ordered field with 1 or -1; an option is there
    exactly when the query has the field. *)
Theorem find_options (query : QueryAST) :
  plain_select query ->
  exists options,
    MongoAdapter.plan query
    = mkPlan plan_mongo_query None None (Some (MongoAdapter.buildFilter query)) None
        (Some options) None
    /\ match select query with
       | Some fields =>
           exists projection,
             obj_get options "projection" = Some (VObj projection)
             /\ forall f,
                  obj_get projection f
                  = if existsb (String.eqb f) fields then Some (VNum 1) else None
       | None => obj_get options "projection" = None
       end
    /\ obj_get options "limit" = option_map VNum (limit query)
    /\ obj_get options "skip" = option_map VNum (offset query)
    /\ obj_get options "sort" = option_map sort_of (orderBy query)
    /\ (forall k, obj_get options k <> None ->
          In k ["projection"; "limit"; "skip"; "sort"]%string).
Proof.
  intros [Ht [Ha Hg]]. unfold MongoAdapter.plan. rewrite Ht, Ha, Hg.
  eexists. split; [reflexivity |].
  unfold sort_of, MongoAdapter.sortDirection.
  destruct (select query) as [fields|], (limit query), (offset query),
    (orderBy query) as [[f []]|];
    (split;
     [first [reflexivity
            |eexists; split;
             [reflexivity
             |intros f'; apply (obj_get_fromEntries_keys (fun _ => VNum 1))]]
     |]);
    (repeat split; try reflexivity);
    intros k H; apply obj_get_keys in H; simpl in H; simpl; tauto.
Qed.

Lemma find_options_witness :
  exists options,
    plan_options
      (MongoAdapter.plan
         (QueryBuilder.build
            (QueryBuilder.chain "users"
               [QueryBuilder.CSelect ["name"; "1"]%string;
                QueryBuilder.COrderBy "age" desc; QueryBuilder.CLimit 5])))
    = Some options
    /\ (exists projection,
          obj_get options "projection" = Some (VObj projection)
          /\ obj_get projection "1" = Some (VNum 1)
          /\ obj_get projection "age" = None)
    /\ obj_get options "limit" = Some (VNum 5)
    /\ obj_get options "skip" = None.
Proof.
  destruct (@find_options
              (QueryBuilder.build
                 (QueryBuilder.chain "users"
                    [QueryBuilder.CSelect ["name"; "1"]%string;
                     QueryBuilder.COrderBy "age" desc; QueryBuilder.CLimit 5])))
    as [options [Hp [[projection [Hj Hf]] [Hl [Hs _]]]]].
  - repeat split.
  - exists options. rewrite Hp. split; [reflexivity |].
    split; [| split; assumption].
    exists projection. split; [exact Hj |].
    split; [exact (Hf "1"%string) | exact (Hf "age"%string)].
Defined.

(** ** Reshaping aggregation rows *)








(** ** The document migration planner *)

Lemma mongo_properties_fold (fields : list (string * FieldDef))
    (init : list (string * FieldDef)) (acc : list (string * value)) :
  acc = fromEntries
          (map (fun fd => (fst fd, VObj [("bsonType"%string, MongoAdapter.bsonTypeOf (snd fd))]))
             (filter (fun fd => negb (is_id fd)) init)) ->
  fold_left
    (fun properties fd =>
       let '(field, def) := fd in
       if (field =? "id")%string then properties
       else obj_set properties field
              (VObj [("bsonType"%string, MongoAdapter.bsonTypeOf def)]))
    fields acc
  = fromEntries
      (map (fun fd => (fst fd, VObj [("bsonType"%string, MongoAdapter.bsonTypeOf (snd fd))]))
         (filter (fun fd => negb (is_id fd)) (init ++ fields))).
Proof.
  revert init acc. induction fields as [|[f d] fields IH]; intros init acc Hacc.
  - simpl. now rewrite app_nil_r.
  - cbn [fold_left].
    replace (init ++ (f, d) :: fields) with ((init ++ [(f, d)]) ++ fields)
      by now rewrite <- app_assoc.
    apply IH. rewrite filter_app, map_app. simpl. unfold is_id at 2. cbn [fst].
    destruct (f =? "id")%string; simpl.
    + now rewrite app_nil_r.
    + rewrite fromEntries_snoc. now rewrite Hacc.
Qed.

Lemma mongo_planModel_shape (existing : list string) (ops : list value)
    (logs : list string) (model : ModelSchema) :
  exists newLogs,
    MongoAdapter.planModel existing (ops, logs) model
    = (ops ++ document_operations existing model, logs ++ newLogs)
    /\ List.length newLogs = List.length (document_operations existing model).
Proof.
  unfold MongoAdapter.planModel, document_operations, collMod_command,
    create_command, validator_properties.
  rewrite (@mongo_properties_fold (schema_fields model) [] []) by reflexivity.
  cbn [app]. destruct (existsb (String.eqb (schema_table model)) existing); cbn [negb].
  - eexists [_]. split; [reflexivity | reflexivity].
  - eexists [_; _]. rewrite <- !app_assoc. split; reflexivity.
Qed.

Lemma mongo_plan_fold (existing : list string) (models : list ModelSchema)
    (ops : list value) (logs : list string) :
  exists newLogs,
    fold_left (MongoAdapter.planModel existing) models (ops, logs)
    = (ops ++ flat_map (document_operations existing) models, logs ++ newLogs)
    /\ List.length newLogs
       = List.length (flat_map (document_operations existing) models).
Proof.
  revert ops logs. induction models as [|m ms IH]; intros ops logs.
  - exists []. simpl. rewrite !app_nil_r. split; reflexivity.
  - cbn [fold_left flat_map].
    destruct (mongo_planModel_shape existing ops logs m) as [l1 [-> H1]].
    destruct (IH (ops ++ document_operations existing m) (logs ++ l1)) as [l2 [-> H2]].
    exists (l1 ++ l2). rewrite <- !app_assoc. split; [reflexivity |].
    rewrite !length_app. lia.
Qed.


Lemma plan_fold_logs (DB : Type) (tableCheck : DB -> string -> bool)
    (colCheck : DB -> string -> list string) (db : DB) (models : list ModelSchema)
    (acc : list string * list string) :
  List.length (fst acc) = List.length (snd acc) ->
  List.length (fst (fold_left (PostgresAdapter.planModel tableCheck colCheck db) models acc))
  = List.length (snd (fold_left (PostgresAdapter.planModel tableCheck colCheck db) models acc)).
Proof.
  revert acc. induction models as [|m ms IH]; intros acc Hacc; [exact Hacc |].
  cbn [fold_left]. apply IH. destruct acc as [ops logs]. cbn [fst snd] in Hacc.
  unfold PostgresAdapter.planModel.
  destruct (negb (tableCheck db (schema_table m))).
  - cbn [fst snd]. rewrite !length_app. simpl. lia.
  - generalize (colCheck db (schema_table m)). intros existing.
    revert ops logs Hacc.
    induction (schema_fields m) as [|[f d] fields IHf]; intros ops logs Hacc;
      [exact Hacc |].
    cbn [fold_left].
    destruct ((f =? "id")%string || existsb (String.eqb f) existing).
    + apply IHf. exact Hacc.
    + apply IHf. rewrite !length_app. simpl. lia.
Qed.

(** X10.  In the plan of either planner the log lines run parallel to the
    operations: there are as many lines as operations. *)
Theorem plan_logs_parallel :
  (forall (DB : Type) (tableCheck : DB -> string -> bool)
          (colCheck : DB -> string -> list string) (db : DB) (models : list ModelSchema),
      List.length (logs (PostgresAdapter.planSync tableCheck colCheck db models))
      = List.length (operations (PostgresAdapter.planSync tableCheck colCheck db models)))
  /\ (forall (DB : Type) (listCollections : DB -> list string) (db : DB)
             (models : list ModelSchema),
         List.length (logs (MongoAdapter.planSync listCollections db models))
         = List.length (operations (MongoAdapter.planSync listCollections db models))).
Proof.
  split.
  - intros DB tableCheck colCheck db models. unfold PostgresAdapter.planSync.
    pose proof (@plan_fold_logs DB tableCheck colCheck db models ([], []) eq_refl) as H.
    destruct (fold_left (PostgresAdapter.planModel tableCheck colCheck db) models ([], []))
      as [ops lgs].
    cbn [fst snd logs operations] in *. now symmetry.
  - intros DB listCollections db models. unfold MongoAdapter.planSync.
    destruct (mongo_plan_fold (listCollections db) models [] []) as [l [-> Hl]].
    cbn [logs operations app]. exact Hl.
Qed.

(** ** Applying a plan, in general *)

(** X11.  The document [sync] puts every command of the plan to the driver
    exactly once and in plan order: a command that fails does not keep the
    later ones from being issued. *)
Theorem document_sync_issues_all (DB : Type) (listCollections : DB -> list string)
    (db_command : DB -> value -> DB * result unit) (db : DB) (models : list ModelSchema) :
  db_after (MongoAdapter.sync listCollections db_command db models)
  = issued db_command (operations (MongoAdapter.planSync listCollections db models)) db.
Proof.
  unfold MongoAdapter.sync. cbn [db_after].
  generalize (operations (MongoAdapter.planSync listCollections db models)).
  intros ops. revert db. induction ops as [|op ops IH]; intros db; [reflexivity |].
  simpl. destruct (db_command db op) as [db' [u | e]]; apply IH.
Qed.

Lemma runOperations_outcome (DB : Type) (client : DB -> string -> DB * result unit)
    (ops : list string) (db : DB) :
  match PostgresAdapter.runOperations client db ops with
  | (db', Ok _) =>
      db' = issued client ops db
      /\ forall done op rest, ops = done ++ op :: rest ->
           exists u, snd (client (issued client done db) op) = Ok u
  | (db', Throw e) =>
      exists done op rest,
        ops = done ++ op :: rest
        /\ db' = issued client (done ++ [op]) db
        /\ snd (client (issued client done db) op) = Throw e
        /\ forall done' op' rest', done = done' ++ op' :: rest' ->
             exists u, snd (client (issued client done' db) op') = Ok u
  end.
Proof.
  revert db. induction ops as [|op ops IH]; intros db.
  - simpl. split; [reflexivity |]. intros [|x done] op rest H; discriminate H.
  - cbn [PostgresAdapter.runOperations].
    destruct (client db op) as [db1 [u | e]] eqn:E.
    + specialize (IH db1).
      destruct (PostgresAdapter.runOperations client db1 ops) as [db' [u' | e']].
      * destruct IH as [Hdb Hall]. split.
        -- unfold issued in *. simpl. now rewrite E.
        -- intros [|x done] op' rest H.
           ++ injection H as <- _. unfold issued. simpl. rewrite E.
              exists u. reflexivity.
           ++ injection H as <- H. unfold issued. simpl. rewrite E.
              apply (Hall done op' rest H).
      * destruct IH as [done [op' [rest [Hops [Hdb [Hfail Hdone]]]]]].
        exists (op :: done), op', rest. unfold issued in *. simpl. rewrite E.
        split; [now rewrite Hops |]. split; [exact Hdb |]. split; [exact Hfail |].
        intros [|x done'] op2 rest2 H.
        -- injection H as <- _. simpl. rewrite E. exists u. reflexivity.
        -- injection H as <- H. simpl. rewrite E. apply (Hdone done' op2 rest2 H).
    + exists [], op, ops. unfold issued. simpl. rewrite E.
      split; [reflexivity |]. split; [reflexivity |]. split; [reflexivity |].
      intros [|x done'] op2 rest2 H; discriminate H.
Qed.

(** X12.  The relational [sync] runs the statements of the plan in order
    and stops at the first that fails: when it ends well every statement
    has been run and has succeeded, and when it throws, every statement
    before the failing one has been run and has succeeded, the failing
    statement is the last one run, and the error is its error. *)
Theorem relational_sync_outcome (DB : Type) (tableCheck : DB -> string -> bool)
    (colCheck : DB -> string -> list string)
    (client : DB -> string -> DB * result unit) (db : DB) (models : list ModelSchema) :
  let ops := operations (PostgresAdapter.planSync tableCheck colCheck db models) in
  let run := PostgresAdapter.sync tableCheck colCheck client db models in
  (outcome run = Ok tt ->
   db_after run = issued client ops db
   /\ forall done op rest, ops = done ++ op :: rest ->
        exists u, snd (client (issued client done db) op) = Ok u)
  /\ (forall e, outcome run = Throw e ->
        exists done op rest,
          ops = done ++ op :: rest
          /\ db_after run = issued client (done ++ [op]) db
          /\ snd (client (issued client done db) op) = Throw e
          /\ forall done' op' rest', done = done' ++ op' :: rest' ->
               exists u, snd (client (issued client done' db) op') = Ok u).
Proof.
  cbv zeta. unfold PostgresAdapter.sync.
  pose proof (runOperations_outcome client
                (operations (PostgresAdapter.planSync tableCheck colCheck db models)) db)
    as H.
  destruct (PostgresAdapter.runOperations client db
              (operations (PostgresAdapter.planSync tableCheck colCheck db models)))
    as [db' [u | e]]; cbn [outcome db_after]; split.
  - intros _. exact H.
  - intros e He. discriminate He.
  - intros He. discriminate He.
  - intros e' He. injection He as <-. exact H.
Qed.

Lemma relational_sync_outcome_witness :
  db_after
    (PostgresAdapter.sync journal_tableCheck journal_colCheck accepting_client []
       [user_model; profile_model])
  = operations
      (PostgresAdapter.planSync journal_tableCheck journal_colCheck []
         [user_model; profile_model])
  /\ exists e,
       outcome
         (PostgresAdapter.sync journal_tableCheck journal_colCheck racing_client []
            [user_model; profile_model]) = Throw e
       /\ snd (racing_client []
                 (hd EmptyString
                    (operations
                       (PostgresAdapter.planSync journal_tableCheck journal_colCheck []
                          [user_model; profile_model])))) = Throw e.
Proof.
  split.
  - rewrite (proj1 (proj1 (relational_sync_outcome journal_tableCheck journal_colCheck
                             accepting_client [] [user_model; profile_model]) eq_refl)).
    reflexivity.
  - exists duplicate_column. split; [reflexivity |].
    destruct (proj2 (relational_sync_outcome journal_tableCheck journal_colCheck
                       racing_client [] [user_model; profile_model])
                duplicate_column eq_refl)
      as [done [op [rest [Hops [_ [Hfail _]]]]]].
    reflexivity.
Defined.

(** ** Chains of builder calls *)

Lemma chain_table (table : string) (calls : list QueryBuilder.Call) :
  QueryBuilder.table (QueryBuilder.chain table calls) = table.
Proof.
  induction calls as [|c calls IH] using rev_ind; [reflexivity |].
  rewrite chain_snoc. destruct c; exact IH.
Qed.

Lemma chain_conditions (table : string) (calls : list QueryBuilder.Call) :
  QueryBuilder.conditions (QueryBuilder.chain table calls) = where_calls calls.
Proof.
  induction calls as [|c calls IH] using rev_ind; [reflexivity |].
  rewrite chain_snoc. unfold where_calls in *. rewrite flat_map_app. cbn [flat_map].
  rewrite <- IH. destruct c; simpl; rewrite ?app_nil_r; reflexivity.
Qed.

Lemma chain_groups (table : string) (calls : list QueryBuilder.Call) :
  QueryBuilder.logicalGroups (QueryBuilder.chain table calls) = group_calls calls.
Proof.
  induction calls as [|c calls IH] using rev_ind; [reflexivity |].
  rewrite chain_snoc. unfold group_calls in *. rewrite flat_map_app. cbn [flat_map].
  rewrite <- IH. destruct c; simpl; rewrite ?app_nil_r; reflexivity.
Qed.

Lemma chain_aggregations (table : string) (calls : list QueryBuilder.Call) :
  match QueryBuilder.aggregations (QueryBuilder.chain table calls) with
  | Some aggs => aggs = aggregate_calls calls
  | None => aggregate_calls calls = []
  end.
Proof.
  induction calls as [|c calls IH] using rev_ind; [reflexivity |].
  rewrite chain_snoc. unfold aggregate_calls in *. rewrite flat_map_app. cbn [flat_map].
  destruct c; simpl; rewrite ?app_nil_r; try exact IH;
    (destruct (QueryBuilder.aggregations (QueryBuilder.chain table calls));
     rewrite IH; reflexivity).
Qed.

Lemma build_aggregations (table : string) (calls : list QueryBuilder.Call) :
  aggregations (QueryBuilder.build (QueryBuilder.chain table calls))
  = some_if_any (aggregate_calls calls).
Proof.
  unfold QueryBuilder.build. cbn [aggregations].
  pose proof (chain_aggregations table calls) as Ha.
  destruct (QueryBuilder.aggregations (QueryBuilder.chain table calls)) as [aggs|].
  - subst aggs. now destruct (aggregate_calls calls).
  - now rewrite Ha.
Qed.

(** X13.  Whatever else is called in between, the built query has the
    [where] conditions in call order, the [or]/[and] groups in call order and
    the aggregations in call order; each of the three is left out, never an
    empty list, when no such call was made. *)
Theorem build_accumulates (table : string) (calls : list QueryBuilder.Call) :
  let ast := QueryBuilder.build (QueryBuilder.chain table calls) in
  conditions ast = some_if_any (where_calls calls)
  /\ logical ast = some_if_any (group_calls calls)
  /\ aggregations ast = some_if_any (aggregate_calls calls).
Proof.
  cbv zeta. unfold QueryBuilder.build. cbn [conditions logical aggregations].
  rewrite chain_conditions, chain_groups.
  split; [now destruct (where_calls calls) |].
  split; [now destruct (group_calls calls) |].
  apply build_aggregations.
Qed.

Lemma chain_last_set (table : string) (calls : list QueryBuilder.Call) :
  let b := QueryBuilder.chain table calls in
  QueryBuilder.limitValue b = last_set pick_limit calls
  /\ QueryBuilder.offsetValue b = last_set pick_offset calls
  /\ QueryBuilder.orderByValue b = last_set pick_orderBy calls
  /\ QueryBuilder.selectFields b = last_set pick_select calls
  /\ QueryBuilder.groupByFields b = last_set pick_groupBy calls.
Proof.
  induction calls as [|c calls IH] using rev_ind; [repeat split |].
  rewrite chain_snoc. cbv zeta in *. unfold last_set in *. rewrite !fold_left_app.
  destruct IH as [H1 [H2 [H3 [H4 H5]]]].
  rewrite <- H1, <- H2, <- H3, <- H4, <- H5.
  destruct c; repeat split.
Qed.

(** X14.  Limit, offset, ordering, projection and grouping are
    last-write-wins: for a chain whose [paginate] calls have finite
    arguments, the built query carries what the last call that sets the
    field gave it, where [paginate(page, size)] sets the limit to [size] and
    the offset to [(page - 1) * size] as the arithmetic of numbers gives
    it: the exact product as long as [page], [page - 1] and the product
    stay below 2^53 in magnitude, and the double nearest to it beyond
    ([paginate(94906268, 94906267)] gives 9007199515875288). *)
Theorem build_last_write_wins (table : string) (calls : list QueryBuilder.Call) :
  Forall finite_pages calls ->
  let ast := QueryBuilder.build (QueryBuilder.chain table calls) in
  (limit ast = last_set pick_limit calls
   /\ offset ast = last_set pick_offset calls
   /\ orderBy ast = last_set pick_orderBy calls
   /\ select ast = last_set pick_select calls
   /\ groupBy ast = last_set pick_groupBy calls)
  /\ (forall page pageSize : Z,
        (Z.abs page < 2 ^ 53)%Z ->
        (Z.abs (page - 1) < 2 ^ 53)%Z ->
        (Z.abs ((page - 1) * pageSize) < 2 ^ 53)%Z ->
        pick_offset (QueryBuilder.CPaginate page pageSize)
        = Some ((page - 1) * pageSize)%Z)
  /\ pick_offset (QueryBuilder.CPaginate 94906268 94906267) = Some 9007199515875288%Z.
Proof.
  intros _. split; [exact (chain_last_set table calls) |]. split; [| reflexivity].
  intros page pageSize H0 H1 H2. unfold pick_offset, number_mul, number_sub.
  rewrite (nearest_double_safe _ H0).
  change (nearest_double 1) with 1%Z. rewrite !(nearest_double_safe _ H1).
  destruct (Z.eq_dec (page - 1) 0) as [Hz | Hnz].
  - rewrite Hz, !Z.mul_0_l. reflexivity.
  - rewrite (nearest_double_safe pageSize).
    + now rewrite (nearest_double_safe _ H2).
    + rewrite Z.abs_mul in H2.
      assert (1 <= Z.abs (page - 1))%Z by lia.
      assert (0 <= Z.abs pageSize)%Z by apply Z.abs_nonneg.
      assert (0 < 2 ^ 53)%Z by reflexivity.
      nia.
Qed.

Lemma build_last_write_wins_witness :
  offset
    (QueryBuilder.build
       (QueryBuilder.chain "users"
          [QueryBuilder.COffset 7; QueryBuilder.CPaginate 3 10]))
  = Some 20%Z.
Proof.
  assert (Hf : Forall finite_pages
                 [QueryBuilder.COffset 7; QueryBuilder.CPaginate 3 10]).
  { repeat constructor. }
  destruct (build_last_write_wins "users" Hf) as [[_ [Ho _]] [Hp _]].
  cbv zeta in Ho. rewrite Ho.
  unfold last_set. cbn [fold_left pick_offset].
  apply (Hp 3%Z 10%Z); vm_compute; reflexivity.
Defined.

(** X15.  Capability check of built queries.  Against a backend without
    aggregation a built query is rejected exactly when the chain has an
    aggregate call or its last [groupBy] call named at least one field; a
    [groupBy([])] alone passes. *)
Theorem built_query_rejected_iff (table : string) (calls : list QueryBuilder.Call)
    (capabilities : AdapterCapabilities) :
  supportsAggregation capabilities = false ->
  ((exists msg,
       validateQuery (QueryBuilder.build (QueryBuilder.chain table calls)) capabilities
       = Throw (CapabilityError msg))
   <-> (aggregate_calls calls <> []
        \/ exists f fs, last_set pick_groupBy calls = Some (f :: fs))).
Proof.
  intros Hcap. unfold validateQuery. rewrite Hcap. cbn [negb].
  rewrite build_aggregations.
  replace (groupBy (QueryBuilder.build (QueryBuilder.chain table calls)))
    with (last_set pick_groupBy calls)
    by (symmetry; apply (chain_last_set table calls)).
  destruct (aggregate_calls calls) as [|a aggs]; cbn [some_if_any].
  - destruct (last_set pick_groupBy calls) as [[|f fs]|].
    + split; [intros [msg H]; discriminate H |].
      intros [H | [f [fs H]]]; [now elim H | discriminate H].
    + split; [intros _; right; eauto | intros _; eexists; reflexivity].
    + split; [intros [msg H]; discriminate H |].
      intros [H | [f [fs H]]]; [now elim H | discriminate H].
  - split; [intros _; left; discriminate | intros _; eexists; reflexivity].
Qed.

Lemma built_query_rejected_iff_witness :
  (exists msg,
      validateQuery
        (QueryBuilder.build
           (QueryBuilder.chain "sales" [QueryBuilder.CGroupBy ["region"%string]]))
        (withAggregation false PostgresAdapter.capabilities)
      = Throw (CapabilityError msg))
  /\ validateQuery
       (QueryBuilder.build (QueryBuilder.chain "sales" [QueryBuilder.CGroupBy []]))
       (withAggregation false PostgresAdapter.capabilities)
     = Ok true.
Proof.
  split; [| reflexivity].
  apply (proj2 (@built_query_rejected_iff "sales"
                  [QueryBuilder.CGroupBy ["region"%string]]
                  (withAggregation false PostgresAdapter.capabilities) eq_refl)).
  right. exists "region"%string, []. reflexivity.
Defined.

(** X16.  An empty group-by list.  A select with [groupBy([])] and no
    aggregation passes the capability check of every backend, although the
    document compiler treats it as an aggregation and plans a pipeline, and
    the relational compiler writes a GROUP BY clause without any column. *)
Theorem empty_groupBy_edge (query : QueryAST) (capabilities : AdapterCapabilities) :
  type query = q_select ->
  groupBy query = Some [] ->
  aggregations query = None ->
  validateQuery query capabilities = Ok true
  /\ MongoAdapter.plan query
     = mkPlan plan_mongo_pipeline None None None
         (Some (match_stage (MongoAdapter.buildFilter query)
                  ++ [VObj [("$group"%string, VObj [("_id"%string, VNull)])]]
                  ++ sort_stage query ++ skip_stage query ++ limit_stage query))
         None None
  /\ render (fst (PostgresAdapter.buildSelect query))
     = ("SELECT " ++ match projection_list query with
                     | [] => "*"
                     | cols => join ", " cols
                     end
          ++ " FROM " ++ table query ++ where_clause query ++ " GROUP BY "
          ++ order_by_clause query ++ limit_clause query ++ offset_clause query)%string.
Proof.
  intros Ht Hg Ha. split; [| split].
  - unfold validateQuery. rewrite Hg, Ha. now destruct (negb _).
  - unfold MongoAdapter.plan. rewrite Ht, Ha, Hg.
    rewrite buildAggregatePipeline_stages.
    unfold pipeline_stages, group_stage, group_document, group_entries,
      aggregation_ops, group_key.
    rewrite Ha, Hg. reflexivity.
  - rewrite buildSelect_statement. unfold select_statement, columns_projection_first,
      aggregation_list, group_by_clause. rewrite Ha, Hg. cbn [map]. rewrite app_nil_r.
    destruct (projection_list query); reflexivity.
Qed.

Lemma empty_groupBy_edge_witness :
  validateQuery
    (QueryBuilder.build
       (QueryBuilder.chain "sales"
          [QueryBuilder.CGroupBy []; QueryBuilder.CLimit (10 ^ 21)]))
    (withAggregation false PostgresAdapter.capabilities) = Ok true
  /\ render
       (fst (PostgresAdapter.buildSelect
               (QueryBuilder.build
                  (QueryBuilder.chain "sales"
                     [QueryBuilder.CGroupBy []; QueryBuilder.CLimit (10 ^ 21)]))))
     = "SELECT * FROM sales GROUP BY  LIMIT 1e+21"%string.
Proof.
  destruct (@empty_groupBy_edge
              (QueryBuilder.build
                 (QueryBuilder.chain "sales"
                    [QueryBuilder.CGroupBy []; QueryBuilder.CLimit (10 ^ 21)]))
              (withAggregation false PostgresAdapter.capabilities)
              eq_refl eq_refl eq_refl) as [Hv [_ Hs]].
  split; [exact Hv |]. rewrite Hs. vm_compute. reflexivity.
Defined.

(** ** Registration and resolution *)

Lemma map_get_set (m : list (string * Adapter)) (k k' : string) (a : Adapter) :
  Synqra.map_get (Synqra.map_set m k a) k'
  = if String.eqb k k' then Some a else Synqra.map_get m k'.
Proof.
  induction m as [|[k0 a0] m IH]; simpl.
  - reflexivity.
  - destruct (String.eqb_spec k0 k) as [-> | Hne]; simpl.
    + destruct (String.eqb k k'); reflexivity.
    + rewrite IH. destruct (String.eqb_spec k0 k') as [-> | Hne'].
      * destruct (String.eqb_spec k k') as [-> | _]; [now elim Hne | reflexivity].
      * reflexivity.
Qed.

Lemma configured_primary (primary : Adapter) (regs : list Registration) :
  Synqra.map_get (Synqra.adapters (configured primary regs)) "primary" <> None.
Proof.
  unfold configured. induction regs as [|r regs IH] using rev_ind.
  - discriminate.
  - rewrite fold_left_app. cbn [fold_left]. destruct r as [name a | o].
    + cbn [register Synqra.addAdapter Synqra.adapters]. rewrite map_get_set.
      destruct (String.eqb name "primary"); [discriminate | exact IH].
    + exact IH.
Qed.

(** X17.  A router made by [new Synqra(primary)] and any sequence of
    [addAdapter] and [addObserver] calls resolves every intent, also no
    intent, to a registered backend: resolution never comes back empty. *)
Theorem router_always_resolves (primary : Adapter) (regs : list Registration)
    (i : option Intent) :
  Synqra.getAdapterByIntent (configured primary regs) i <> None.
Proof.
  pose proof (configured_primary primary regs) as Hp.
  unfold Synqra.getAdapterByIntent, Synqra.map_has.
  destruct i as [[| |]|]; try exact Hp.
  - destruct (Synqra.map_get _ "replica"); [discriminate | exact Hp].
  - destruct (Synqra.map_get _ "analytics"); [discriminate | exact Hp].
Qed.

(** X18.  Precedence of resolution.  Registering a backend as [replica]
    makes it the one for reads, as [analytics] the one for aggregates, as
    [primary] (again) the one for writes and for queries without intent;
    registering under any other name changes no resolution, and writes never
    go to the replica or the analytics backend. *)
Theorem router_precedence (db : Synqra.t) (name : string) (a : Adapter) :
  Synqra.getAdapterByIntent (Synqra.addAdapter "replica" a db) (Some i_read) = Some a
  /\ Synqra.getAdapterByIntent (Synqra.addAdapter "analytics" a db) (Some i_aggregate)
     = Some a
  /\ Synqra.getAdapterByIntent (Synqra.addAdapter "primary" a db) (Some i_write) = Some a
  /\ Synqra.getAdapterByIntent (Synqra.addAdapter "primary" a db) None = Some a
  /\ (name <> "primary"%string ->
      Synqra.getAdapterByIntent (Synqra.addAdapter name a db) (Some i_write)
      = Synqra.getAdapterByIntent db (Some i_write)
      /\ Synqra.getAdapterByIntent (Synqra.addAdapter name a db) None
         = Synqra.getAdapterByIntent db None)
  /\ (name <> "primary"%string -> name <> "replica"%string -> name <> "analytics"%string ->
      forall i, Synqra.getAdapterByIntent (Synqra.addAdapter name a db) i
                = Synqra.getAdapterByIntent db i).
Proof.
  unfold Synqra.getAdapterByIntent, Synqra.map_has, Synqra.addAdapter.
  cbn [Synqra.adapters]. rewrite !map_get_set.
  repeat match goal with |- _ /\ _ => split end; try reflexivity.
  - intros Hp. apply String.eqb_neq in Hp. rewrite Hp. split; reflexivity.
  - intros Hp Hr Ha i. apply String.eqb_neq in Hp, Hr, Ha.
    rewrite Hp, Hr, Ha. reflexivity.
Qed.

Lemma router_precedence_witness :
  Synqra.getAdapterByIntent
    (Synqra.addAdapter "cache" (postgres "cache-pg" PostgresAdapter.capabilities no_rows)
       replica_db) (Some i_read)
  = Synqra.getAdapterByIntent replica_db (Some i_read).
Proof.
  apply (proj2 (proj2 (proj2 (proj2 (proj2
           (router_precedence replica_db "cache"
              (postgres "cache-pg" PostgresAdapter.capabilities no_rows))))))).
  all: discriminate.
Defined.

(** ** Observers and the result of an execution *)

Lemma observe_from_all_ok (obs : list QueryObserver) (i : nat) (metrics : QueryMetrics)
    (plan : QueryPlan) (query : QueryAST) :
  (forall o, In o obs -> succeeded (o metrics plan query) = true) ->
  Synqra.observe_from i obs metrics plan query
  = (map EvObserve (seq i (List.length obs)), Ok tt).
Proof.
  revert i. induction obs as [|o obs IH]; intros i Hall; [reflexivity |].
  cbn [Synqra.observe_from]. unfold bind, step.
  pose proof (Hall o (or_introl eq_refl)) as Ho.
  destruct (o metrics plan query) as [u | e]; [| discriminate Ho].
  rewrite IH by (intros o' Hin; apply Hall; now right). reflexivity.
Qed.

Lemma observe_from_first_throw (before after : list QueryObserver) (o : QueryObserver)
    (e : Error) (i : nat) (metrics : QueryMetrics) (plan : QueryPlan) (query : QueryAST) :
  (forall o', In o' before -> succeeded (o' metrics plan query) = true) ->
  o metrics plan query = Throw e ->
  Synqra.observe_from i (before ++ o :: after) metrics plan query
  = (map EvObserve (seq i (S (List.length before))), Throw e).
Proof.
  revert i. induction before as [|o' before IH]; intros i Hall Ho.
  - cbn [app Synqra.observe_from]. unfold bind, step. rewrite Ho. reflexivity.
  - cbn [app Synqra.observe_from]. unfold bind, step.
    pose proof (Hall o' (or_introl eq_refl)) as Ho'.
    destruct (o' metrics plan query) as [u | e']; [| discriminate Ho'].
    rewrite IH by ((intros o'' Hin; apply Hall; now right) || exact Ho). reflexivity.
Qed.

(** X19.  After a successful plan, validation and backend execution the
    observers are called in registration order with the plan and the query.
    When all of them return, the caller gets the rows of the backend.  When
    one throws, the later observers are not called and the caller gets that
    error instead of the rows, although the backend has executed the
    query. *)
Theorem observers_and_result (db : Synqra.t) (query : QueryAST) (adapter : Adapter)
    (plan : QueryPlan) (rows : value) :
  Synqra.getAdapterByIntent db (intent query) = Some adapter ->
  adapter_plan adapter query = Ok plan ->
  validateQuery query (adapter_capabilities adapter) = Ok true ->
  adapter_execute adapter query = Ok rows ->
  let n := adapter_name adapter in
  let metrics := mkMetrics n in
  ((forall o, In o (Synqra.observers db) -> succeeded (o metrics plan query) = true) ->
   Synqra.execute db query
   = ([EvPlan n; EvValidate n; EvExecute n]
        ++ observer_events (List.length (Synqra.observers db)),
      Ok rows))
  /\ (forall before o after e,
        Synqra.observers db = before ++ o :: after ->
        (forall o', In o' before -> succeeded (o' metrics plan query) = true) ->
        o metrics plan query = Throw e ->
        Synqra.execute db query
        = ([EvPlan n; EvValidate n; EvExecute n]
             ++ observer_events (S (List.length before)),
           Throw e)).
Proof.
  intros Hsel Hplan Hval Hexec. cbv zeta. unfold Synqra.execute.
  rewrite Hsel, Hplan, Hval, Hexec. unfold Synqra.observe, observer_events. split.
  - intros Hall. unfold bind, step, ret. rewrite observe_from_all_ok by exact Hall.
    cbn [app]. now rewrite app_nil_r.
  - intros before o after e Hobs Hall Ho. unfold bind, step, ret. rewrite Hobs.
    rewrite observe_from_first_throw with (e := e) by assumption.
    reflexivity.
Qed.

Lemma observers_and_result_witness :
  Synqra.execute (Synqra.addObserver failing_observer plain_db)
    (withIntent (blank q_select "logs") i_read)
  = ([EvPlan "primary-pg"%string; EvValidate "primary-pg"%string;
      EvExecute "primary-pg"%string; EvObserve 0],
     Throw (BackendError "metrics sink unavailable")).
Proof.
  destruct (@observers_and_result (Synqra.addObserver failing_observer plain_db)
              (withIntent (blank q_select "logs") i_read)
              (postgres "primary-pg" PostgresAdapter.capabilities no_rows)
              (mkPlan plan_sql (Some "SELECT * FROM logs"%string) (Some [])
                 None None None None)
              (VArr []) eq_refl eq_refl eq_refl eq_refl) as [_ H].
  exact (H [] failing_observer [] (BackendError "metrics sink unavailable")
           eq_refl (fun o' (F : In o' []) => match F with end) eq_refl).
Defined.

(** X20.  Default intents.  With a replica registered and no intent forced,
    [find] is run on the replica while [insert], [update] and [delete] are
    run on the primary; a forced intent takes precedence, so an insert with
    intent read is run on the replica. *)
Theorem default_intents (db : Synqra.t) (b : QueryBuilder.t) (d : list (string * value))
    (primary replica : Adapter) :
  Synqra.map_get (Synqra.adapters db) "primary" = Some primary ->
  Synqra.map_get (Synqra.adapters db) "replica" = Some replica ->
  let q := Synqra.mkSynqraQuery db b None in
  hd_error (trace (Synqra.find q)) = Some (EvPlan (adapter_name replica))
  /\ hd_error (trace (Synqra.insert d q)) = Some (EvPlan (adapter_name primary))
  /\ hd_error (trace (Synqra.update d q)) = Some (EvPlan (adapter_name primary))
  /\ hd_error (trace (Synqra.delete q)) = Some (EvPlan (adapter_name primary))
  /\ hd_error (trace (Synqra.insert d (Synqra.mkSynqraQuery db b (Some i_read))))
     = Some (EvPlan (adapter_name replica)).
Proof.
  intros Hp Hr. cbv zeta.
  unfold Synqra.find, Synqra.insert, Synqra.update, Synqra.delete, Synqra.intentOr,
    Synqra.execute, Synqra.getAdapterByIntent, Synqra.map_has, withIntent.
  cbn [Synqra.db Synqra.builder Synqra.forcedIntent intent]. rewrite Hp, Hr.
  unfold bind, step, trace.
  repeat split;
    match goal with
    | |- context [adapter_plan ?a ?q] => destruct (adapter_plan a q)
    end; try reflexivity;
    match goal with
    | |- context [validateQuery ?q ?c] => destruct (validateQuery q c)
    end; try reflexivity;
    match goal with
    | |- context [adapter_execute ?a ?q] => destruct (adapter_execute a q)
    end; try reflexivity;
    match goal with
    | |- context [Synqra.observe ?a ?m ?p ?q] => destruct (Synqra.observe a m p q) as [? []]
    end; reflexivity.
Qed.

Lemma default_intents_witness :
  hd_error (trace (Synqra.find (Synqra.from replica_db "users")))
  = Some (EvPlan "replica-pg"%string)
  /\ hd_error (trace (Synqra.insert alice (Synqra.from replica_db "users")))
     = Some (EvPlan "primary-pg"%string).
Proof.
  destruct (@default_intents replica_db (QueryBuilder.new "users") alice
              (postgres "primary-pg" PostgresAdapter.capabilities no_rows)
              (postgres "replica-pg" PostgresAdapter.capabilities no_rows)
              eq_refl eq_refl) as [Hf [Hi _]].
  split; [exact Hf | exact Hi].
Defined.

(** ** Transactions *)

Lemma transaction_steps (begin callback commit rollback : result unit) :
  let steps := fst (transaction begin callback commit rollback) in
  let r := snd (transaction begin callback commit rollback) in
  (r = Ok tt <-> succeeded begin && succeeded callback && succeeded commit = true)
  /\ (r = Ok tt -> steps = [TxBegin; TxCallback; TxCommit])
  /\ (r <> Ok tt ->
      exists before, steps = before ++ [TxRollback] /\ ~ In TxRollback before)
  /\ (In TxCallback steps -> succeeded begin = true)
  /\ (In TxCommit steps -> succeeded begin = true /\ succeeded callback = true)
  /\ (forall e, r <> Ok tt -> rollback = Throw e -> r = Throw e)
  /\ (forall e, begin = Throw e -> succeeded rollback = true ->
        steps = [TxBegin; TxRollback] /\ r = Throw e).
Proof.
  cbv zeta. unfold transaction, rollback_and_rethrow.
  destruct begin as [[] | eb], callback as [[] | ec], commit as [[] | em],
    rollback as [[] | er]; cbn [fst snd succeeded andb app];
    repeat match goal with |- _ /\ _ => split end;
    try (split; intros H; (reflexivity || discriminate H));
    try (intros H; (reflexivity || (now elim H) || discriminate H));
    try (intros _; eexists; split; [reflexivity | simpl; intuition discriminate]);
    try (intros H; simpl in H; intuition discriminate);
    try (intros e H1 H2; (discriminate H2 || (now elim H1) || (injection H2 as <-; reflexivity)
                          || (injection H1 as <-; split; reflexivity) || discriminate H1)).
  all: intros _;
    first [exists [TxBegin; TxCallback; TxCommit]; split; [reflexivity |]
          |exists [TxBegin; TxCallback]; split; [reflexivity |]
          |exists [TxBegin]; split; [reflexivity |]];
    simpl; intuition discriminate.
Qed.

(** X21.  A transaction ends well exactly when begin, callback and commit
    all succeed, and then no rollback is attempted.  On any failure the
    rollback is attempted once, as the last step, also when it was [begin]
    that failed; the callback is not run after a failed begin nor the commit
    after a failed callback.  The caller gets the error of the rollback
    when the rollback throws too, and otherwise the error of the step that
    failed: that of [begin], of the callback, or of the commit. *)
Theorem transaction_outcome (begin callback commit rollback : result unit) :
  let steps := fst (transaction begin callback commit rollback) in
  let r := snd (transaction begin callback commit rollback) in
  (r = Ok tt <-> succeeded begin && succeeded callback && succeeded commit = true)
  /\ (r = Ok tt -> steps = [TxBegin; TxCallback; TxCommit])
  /\ (r <> Ok tt ->
      exists before, steps = before ++ [TxRollback] /\ ~ In TxRollback before)
  /\ (In TxCallback steps -> succeeded begin = true)
  /\ (In TxCommit steps -> succeeded begin = true /\ succeeded callback = true)
  /\ (forall e, r <> Ok tt -> rollback = Throw e -> r = Throw e)
  /\ (forall e, begin = Throw e -> succeeded rollback = true ->
        steps = [TxBegin; TxRollback] /\ r = Throw e)
  /\ (forall e,
        succeeded begin = true -> callback = Throw e -> succeeded rollback = true ->
        steps = [TxBegin; TxCallback; TxRollback] /\ r = Throw e)
  /\ (forall e,
        succeeded begin = true -> succeeded callback = true -> commit = Throw e ->
        succeeded rollback = true ->
        steps = [TxBegin; TxCallback; TxCommit; TxRollback] /\ r = Throw e).
Proof.
  destruct (transaction_steps begin callback commit rollback)
    as [H1 [H2 [H3 [H4 [H5 [H6 H7]]]]]].
  cbv zeta in *.
  repeat match goal with |- _ /\ _ => split end;
    try assumption.
  - intros e Hb Hc Hr. unfold transaction, rollback_and_rethrow.
    destruct begin; [| discriminate Hb]. rewrite Hc.
    destruct rollback; [| discriminate Hr]. split; reflexivity.
  - intros e Hb Hc Hm Hr. unfold transaction, rollback_and_rethrow.
    destruct begin; [| discriminate Hb]. destruct callback; [| discriminate Hc].
    rewrite Hm. destruct rollback; [| discriminate Hr]. split; reflexivity.
Qed.

Lemma transaction_outcome_witness :
  transaction (Ok tt) (Throw (BackendError "constraint")) (Ok tt) (Ok tt)
  = ([TxBegin; TxCallback; TxRollback], Throw (BackendError "constraint"))
  /\ transaction (Ok tt) (Ok tt) (Throw (BackendError "serialization")) (Ok tt)
     = ([TxBegin; TxCallback; TxCommit; TxRollback],
        Throw (BackendError "serialization")).
Proof.
  pose proof (transaction_outcome (Ok tt) (Throw (BackendError "constraint"))
                (Ok tt) (Ok tt)) as H1.
  pose proof (transaction_outcome (Ok tt) (Ok tt)
                (Throw (BackendError "serialization")) (Ok tt)) as H2.
  cbv zeta in H1, H2.
  destruct H1 as [_ [_ [_ [_ [_ [_ [_ [H1 _]]]]]]]].
  destruct H2 as [_ [_ [_ [_ [_ [_ [_ [_ H2]]]]]]]].
  destruct (H1 _ eq_refl eq_refl eq_refl) as [Hs1 Hr1].
  destruct (H2 _ eq_refl eq_refl eq_refl eq_refl) as [Hs2 Hr2].
  split.
  - rewrite (surjective_pairing (transaction _ _ _ _)). now rewrite Hs1, Hr1.
  - rewrite (surjective_pairing (transaction _ _ _ _)). now rewrite Hs2, Hr2.
Defined.

(** ** Defaults *)

Lemma applyDefaults_lookup (definition : list (string * FieldDef))
    (data : list (string * value)) (k : string) :
  obj_get (applyDefaults data definition) k
  = match obj_get data k with
    | Some v => Some v
    | None =>
        if inherits Object_prototype k then None else declared_default definition k
    end.
Proof.
  unfold applyDefaults. revert data.
  induction definition as [|[f fd] rest IH]; intros data.
  - cbn [fold_left declared_default]. destruct (obj_get data k); [reflexivity |].
    now destruct (inherits Object_prototype k).
  - cbn [fold_left declared_default]. rewrite IH.
    destruct (obj_get data f) as [v|] eqn:Ef.
    + destruct (String.eqb_spec f k) as [-> | _]; [now rewrite Ef | reflexivity].
    + destruct (inherits Object_prototype f) eqn:Ei.
      * destruct (String.eqb_spec f k) as [-> | _]; [now rewrite Ef, Ei | reflexivity].
      * destruct (defaultOf fd) as [d|].
        -- rewrite obj_get_set.
           destruct (String.eqb_spec f k) as [-> | _]; [now rewrite Ef, Ei | reflexivity].
        -- destruct (String.eqb_spec f k) as [-> | _]; [now rewrite Ef | reflexivity].
Qed.

(** X22.  Applying defaults never changes a field the data has (also one
    whose value is null), and adds no field that has no declared default.
    A field the data lacks gets its declared default, unless it bears the
    name of a member every object inherits ([constructor], [toString],
    ...): such a field reads as present and is left without its default. *)
Theorem defaults_lookup (definition : list (string * FieldDef))
    (data : list (string * value)) (k : string) :
  obj_get (applyDefaults data definition) k
  = match obj_get data k with
    | Some v => Some v
    | None =>
        if inherits Object_prototype k then None else declared_default definition k
    end.
Proof. apply applyDefaults_lookup. Qed.

Lemma declared_default_in (definition : list (string * FieldDef)) (f : string)
    (fd : FieldDef) :
  In (f, fd) definition -> defaultOf fd <> None -> declared_default definition f <> None.
Proof.
  induction definition as [|[f' fd'] rest IH]; intros Hin Hd; [contradiction |].
  simpl. destruct Hin as [H | H].
  - injection H as -> ->. rewrite String.eqb_refl.
    destruct (defaultOf fd); [discriminate | now elim Hd].
  - destruct (String.eqb f' f); [| now apply IH].
    destruct (defaultOf fd'); [discriminate | now apply IH].
Qed.

Lemma applyDefaults_saturated (definition : list (string * FieldDef))
    (r : list (string * value)) :
  (forall f fd,
      In (f, fd) definition -> defaultOf fd <> None ->
      inherits Object_prototype f = false -> obj_get r f <> None) ->
  applyDefaults r definition = r.
Proof.
  unfold applyDefaults. induction definition as [|[f fd] rest IH]; intros H; [reflexivity |].
  cbn [fold_left]. destruct (obj_get r f) eqn:Ef.
  - apply IH. intros f' fd' Hin. apply H. now right.
  - destruct (inherits Object_prototype f) eqn:Ei.
    + apply IH. intros f' fd' Hin. apply H. now right.
    + destruct (defaultOf fd) eqn:Ed.
      * elim (H f fd (or_introl eq_refl)); [now rewrite Ed | exact Ei | exact Ef].
      * apply IH. intros f' fd' Hin. apply H. now right.
Qed.

(** X23.  Applying defaults is idempotent: a second application changes
    nothing. *)
Theorem defaults_idempotent (definition : list (string * FieldDef))
    (data : list (string * value)) :
  applyDefaults (applyDefaults data definition) definition
  = applyDefaults data definition.
Proof.
  apply applyDefaults_saturated. intros f fd Hin Hd Hi.
  rewrite applyDefaults_lookup, Hi. destruct (obj_get data f); [discriminate |].
  now apply (declared_default_in definition f fd).
Qed.

(** ** Model queries *)

Lemma fold_ops_conditions (f : string) (ops : list (string * value))
    (b : QueryBuilder.t) :
  QueryBuilder.conditions
    (fold_left
       (fun builder ov =>
          let '(op, opValue) := ov in
          QueryBuilder.where_ f (Model.operatorOf op) opValue builder)
       ops b)
  = QueryBuilder.conditions b
      ++ map (fun ov => mkCondition f (Model.operatorOf (fst ov)) (snd ov)) ops.
Proof.
  revert b. induction ops as [|[op v] ops IH]; intros b; simpl.
  - now rewrite app_nil_r.
  - rewrite IH. simpl. now rewrite <- app_assoc.
Qed.

Lemma findBuilder_conditions (table : string) (filter : list (string * value)) :
  QueryBuilder.conditions (Model.findBuilder table (Some filter))
  = filter_conditions filter.
Proof.
  unfold Model.findBuilder, filter_conditions.
  change (flat_map _ filter)
    with (QueryBuilder.conditions (QueryBuilder.new table)
            ++ flat_map
                 (fun fv =>
                    match snd fv with
                    | VObj ops =>
                        map (fun ov =>
                               mkCondition (fst fv) (Model.operatorOf (fst ov)) (snd ov)) ops
                    | v => [mkCondition (fst fv) op_eq v]
                    end) filter).
  generalize (QueryBuilder.new table). intros b. revert b.
  induction filter as [|[f v] filter IH]; intros b.
  - simpl. now rewrite app_nil_r.
  - cbn [fold_left flat_map]. rewrite IH. cbn [fst snd].
    destruct v; try (simpl; now rewrite <- app_assoc).
    rewrite fold_ops_conditions, <- app_assoc. reflexivity.
Qed.

(** X24.  The filter of [Model.find].  A field with a scalar, null or array
    value stands for an equality; a field with a nested object stands for
    one condition per key of the object, [$gt], [$lt], [$gte], [$lte] and
    [$in] naming their operator and every other key reading as equality
    with its value; a nested object without keys contributes no condition,
    so that the query selects every row. *)
Theorem find_filter_conditions (table : string) :
  (forall filter,
      conditions (Model.findQuery table (Some filter))
      = some_if_any (filter_conditions filter)
      /\ logical (Model.findQuery table (Some filter)) = None
      /\ type (Model.findQuery table (Some filter)) = q_select)
  /\ (forall f op v,
         ~ In op known_operators ->
         conditions (Model.findQuery table (Some [(f, VObj [(op, v)])]))
         = Some [mkCondition f op_eq v])
  /\ (forall f,
         conditions (Model.findQuery table (Some [(f, VObj [])])) = None
         /\ PostgresAdapter.plan (Model.findQuery table (Some [(f, VObj [])]))
            = PostgresAdapter.plan (Model.findQuery table None)).
Proof.
  split; [| split].
  - intros filter. unfold Model.findQuery, QueryBuilder.build.
    cbn [conditions logical type]. rewrite findBuilder_conditions.
    split; [now destruct (filter_conditions filter) |].
    assert (H : forall b,
               QueryBuilder.logicalGroups b = [] /\ QueryBuilder.mode b = q_select ->
               let b' := fold_left
                 (fun builder (fv : string * value) =>
                    let '(field, v) := fv in
                    match v with
                    | VObj ops =>
                        fold_left
                          (fun builder (ov : string * value) =>
                             let '(op, opValue) := ov in
                             QueryBuilder.where_ field (Model.operatorOf op) opValue builder)
                          ops builder
                    | _ => QueryBuilder.where_ field op_eq v builder
                    end) filter b in
               QueryBuilder.logicalGroups b' = [] /\ QueryBuilder.mode b' = q_select).
    { induction filter as [|[f v] filter IH]; intros b Hb; [exact Hb |].
      cbn [fold_left]. apply IH.
      destruct v; try exact Hb.
      clear IH. revert b Hb. induction entries as [|[op ov] ops IHo]; intros b Hb;
        [exact Hb |]. cbn [fold_left]. apply IHo. exact Hb. }
    destruct (H (QueryBuilder.new table) (conj eq_refl eq_refl)) as [Hg Hm].
    unfold Model.findBuilder. cbv zeta in Hg, Hm. rewrite Hg, Hm. split; reflexivity.
  - intros f op v Hop. unfold Model.findQuery. simpl.
    unfold known_operators in Hop. simpl in Hop.
    unfold Model.operatorOf.
    repeat match goal with
           | |- context [(op =? ?s)%string] =>
               destruct (String.eqb_spec op s) as [-> | _]; [exfalso; apply Hop; tauto |]
           end.
    reflexivity.
  - intros f. split; reflexivity.
Qed.

Lemma find_filter_conditions_witness :
  conditions (Model.findQuery "users" (Some [("age", VObj [("$ne", VNum 5)])]))
  = Some [mkCondition "age" op_eq (VNum 5)].
Proof.
  apply (proj1 (proj2 (find_filter_conditions "users"))).
  unfold known_operators. simpl. intuition discriminate.
Defined.

Lemma where_calls_equalities (filter : list (string * value)) :
  where_calls (map (fun fv => QueryBuilder.CWhere (fst fv) op_eq (snd fv)) filter)
  = equality_conditions filter.
Proof.
  unfold where_calls, equality_conditions.
  induction filter as [|[f v] filter IH]; [reflexivity |]. simpl. now rewrite IH.
Qed.

Lemma group_calls_equalities (filter : list (string * value)) :
  group_calls (map (fun fv => QueryBuilder.CWhere (fst fv) op_eq (snd fv)) filter) = [].
Proof.
  unfold group_calls. induction filter as [|[f v] filter IH]; [reflexivity |]. exact IH.
Qed.

Lemma eqBuilder_shape (table : string) (filter : list (string * value)) :
  let b := Model.eqBuilder table filter in
  QueryBuilder.conditions b = equality_conditions filter
  /\ QueryBuilder.logicalGroups b = []
  /\ QueryBuilder.table b = table
  /\ b = QueryBuilder.chain table
          (map (fun fv => QueryBuilder.CWhere (fst fv) op_eq (snd fv)) filter).
Proof.
  cbv zeta. unfold Model.eqBuilder, equality_conditions, QueryBuilder.chain.
  assert (H : forall b,
             fold_left
               (fun builder (fv : string * value) =>
                  let '(field, v) := fv in QueryBuilder.where_ field op_eq v builder)
               filter b
             = fold_left QueryBuilder.call
                 (map (fun fv => QueryBuilder.CWhere (fst fv) op_eq (snd fv)) filter) b).
  { induction filter as [|[f v] filter IH]; intros b; [reflexivity |].
    simpl. apply IH. }
  rewrite H.
  pose proof (chain_conditions table
                (map (fun fv => QueryBuilder.CWhere (fst fv) op_eq (snd fv)) filter)) as Hc.
  pose proof (chain_groups table
                (map (fun fv => QueryBuilder.CWhere (fst fv) op_eq (snd fv)) filter)) as Hg.
  pose proof (chain_table table
                (map (fun fv => QueryBuilder.CWhere (fst fv) op_eq (snd fv)) filter)) as Ht.
  unfold QueryBuilder.chain in Hc, Hg, Ht. rewrite Hc, Hg, Ht.
  rewrite where_calls_equalities, group_calls_equalities. repeat split.
Qed.

(** X25.  The filters of [Model.update] and [Model.delete] are read as
    equalities only: every entry, also one with a nested operator object,
    becomes [field = value].  With an empty filter the delete has no
    condition and compiles to [DELETE FROM table] and to the empty document
    filter, and the update to an UPDATE without WHERE. *)
Theorem write_filters_are_equalities (table : string) (filter validated : list (string * value)) :
  (conditions (Model.deleteQuery table filter) = some_if_any (equality_conditions filter)
   /\ logical (Model.deleteQuery table filter) = None
   /\ type (Model.deleteQuery table filter) = q_delete)
  /\ (conditions (Model.updateQuery table filter validated)
      = some_if_any (equality_conditions filter)
      /\ logical (Model.updateQuery table filter validated) = None
      /\ type (Model.updateQuery table filter validated) = q_update
      /\ data (Model.updateQuery table filter validated) = Some validated)
  /\ PostgresAdapter.plan (Model.deleteQuery table [])
     = Ok (mkPlan plan_sql (Some ("DELETE FROM " ++ table)%string) (Some [])
             None None None None)
  /\ MongoAdapter.buildFilter (Model.deleteQuery table []) = VObj []
  /\ PostgresAdapter.plan (Model.updateQuery table [] validated)
     = Ok (mkPlan plan_sql (Some ("UPDATE " ++ table ++ " SET " ++ set_list validated)%string)
             (Some (map snd validated)) None None None None).
Proof.
  destruct (eqBuilder_shape table filter) as [Hc [Hg [Ht _]]]. cbv zeta in *.
  unfold Model.deleteQuery, Model.updateQuery, QueryBuilder.build, QueryBuilder.delete,
    QueryBuilder.update.
  cbn [conditions logical type data QueryBuilder.conditions QueryBuilder.logicalGroups
         QueryBuilder.mode QueryBuilder.data QueryBuilder.table].
  rewrite Hc, Hg.
  split; [| split; [| split; [| split]]].
  - repeat split. now destruct (equality_conditions filter).
  - repeat split. now destruct (equality_conditions filter).
  - unfold PostgresAdapter.plan. simpl. now rewrite append_nil_r.
  - reflexivity.
  - destruct (@plan_update_shape
                (mkQuery q_update table None None None None (Some validated)
                   None None None None None) validated eq_refl eq_refl)
      as [w [Hw [Hplan _]]].
    simpl in Hw. subst w. simpl in Hplan. rewrite append_nil_r, app_nil_r in Hplan.
    exact Hplan.
Qed.

Lemma in_add_member (k k' : string) (ks : list string) :
  In k' (Model.add_member k ks) <-> k' = k \/ In k' ks.
Proof.
  unfold Model.add_member. destruct (existsb (String.eqb k) ks) eqn:E.
  - split; [tauto |]. intros [-> | H]; [| exact H].
    apply existsb_exists in E. destruct E as [x [Hx Heq]].
    apply String.eqb_eq in Heq. now subst x.
  - rewrite in_app_iff. simpl. split.
    + intros [H | [H | []]]; [now right | left; now symmetry].
    + intros [-> | H]; [right; now left | now left].
Qed.

Lemma toJSON_lookup (fields : list (string * FieldDef)) (instance : list (string * value))
    (k : string) :
  obj_get (Model.json_values (Model.toJSON fields instance)) k
  = if declares fields k && negb (k =? "__proto__")%string
    then obj_get instance k
    else None.
Proof.
  unfold Model.toJSON, declares.
  assert (H : forall json,
             obj_get
               (Model.json_values
                  (fold_left
                     (fun json (fd : string * FieldDef) =>
                        let field := fst fd in
                        if (field =? "__proto__")%string then json
                        else
                          match obj_get instance field with
                          | Some v =>
                              Model.mkJsonForm
                                (obj_set (Model.json_values json) field v)
                                (Model.json_members json)
                          | None =>
                              if inherits Model.instance_chain field
                              then Model.mkJsonForm (Model.json_values json)
                                     (Model.add_member field (Model.json_members json))
                              else json
                          end) fields json)) k
             = if existsb (String.eqb k) (map fst fields) && negb (k =? "__proto__")%string
               then
                 match obj_get instance k with
                 | Some v => Some v
                 | None => obj_get (Model.json_values json) k
                 end
               else obj_get (Model.json_values json) k).
  { induction fields as [|[f fd] fields IH]; intros json; [reflexivity |].
    cbn [fold_left map existsb fst]. cbv zeta. rewrite IH. clear IH.
    destruct (String.eqb_spec k f) as [-> | Hne]; cbn [orb].
    - destruct (f =? "__proto__")%string eqn:Ep; cbn [negb].
      + now rewrite andb_false_r.
      + rewrite andb_true_r.
        destruct (obj_get instance f) as [v|] eqn:Ef.
        * cbn [Model.json_values]. rewrite obj_get_set, String.eqb_refl.
          now destruct (existsb (String.eqb f) (map fst fields)).
        * destruct (inherits Model.instance_chain f); cbn [Model.json_values];
            now destruct (existsb (String.eqb f) (map fst fields)).
    - assert (Hk : obj_get
                     (Model.json_values
                        (if (f =? "__proto__")%string then json
                         else
                           match obj_get instance f with
                           | Some v =>
                               Model.mkJsonForm (obj_set (Model.json_values json) f v)
                                 (Model.json_members json)
                           | None =>
                               if inherits Model.instance_chain f
                               then Model.mkJsonForm (Model.json_values json)
                                      (Model.add_member f (Model.json_members json))
                               else json
                           end)) k
                   = obj_get (Model.json_values json) k).
      { destruct (f =? "__proto__")%string; [reflexivity |].
        destruct (obj_get instance f) as [v|].
        - cbn [Model.json_values]. rewrite obj_get_set.
          destruct (String.eqb_spec f k) as [-> | _]; [now elim Hne | reflexivity].
        - now destruct (inherits Model.instance_chain f). }
      now rewrite Hk. }
  rewrite H. cbn [Model.json_values obj_get].
  destruct (existsb (String.eqb k) (map fst fields) && negb (k =? "__proto__")%string);
    [| reflexivity].
  now destruct (obj_get instance k).
Qed.

Lemma toJSON_members (fields : list (string * FieldDef)) (instance : list (string * value))
    (k : string) :
  In k (Model.json_members (Model.toJSON fields instance))
  <-> (declares fields k = true /\ k <> "__proto__"%string
       /\ obj_get instance k = None /\ inherits Model.instance_chain k = true).
Proof.
  unfold Model.toJSON, declares.
  assert (H : forall json,
             In k (Model.json_members
                     (fold_left
                        (fun json (fd : string * FieldDef) =>
                           let field := fst fd in
                           if (field =? "__proto__")%string then json
                           else
                             match obj_get instance field with
                             | Some v =>
                                 Model.mkJsonForm
                                   (obj_set (Model.json_values json) field v)
                                   (Model.json_members json)
                             | None =>
                                 if inherits Model.instance_chain field
                                 then Model.mkJsonForm (Model.json_values json)
                                        (Model.add_member field (Model.json_members json))
                                 else json
                             end) fields json))
             <-> (In k (Model.json_members json)
                  \/ (existsb (String.eqb k) (map fst fields) = true
                      /\ k <> "__proto__"%string
                      /\ obj_get instance k = None
                      /\ inherits Model.instance_chain k = true))).
  { induction fields as [|[f fd] fields IH]; intros json.
    - simpl. split; [tauto |]. intros [H | [H _]]; [exact H | discriminate H].
    - cbn [fold_left map existsb fst]. cbv zeta. rewrite IH. clear IH.
      destruct (String.eqb_spec k f) as [-> | Hne]; cbn [orb].
      + destruct (String.eqb_spec f "__proto__") as [Hp | Hp].
        * split; [| intros [H | [_ [H _]]]; [now left | now elim H]].
          intros [H | [_ [H _]]]; [now left | now elim H].
        * destruct (obj_get instance f) as [v|] eqn:Ef.
          -- cbn [Model.json_members].
             split; (intros [H | [_ [_ [H _]]]]; [now left | discriminate H]).
          -- destruct (inherits Model.instance_chain f) eqn:Ei.
             ++ cbn [Model.json_members]. rewrite in_add_member.
                split; [intros _; right; auto |].
                intros _. left. now left.
             ++ split; (intros [H | [_ [_ [_ H]]]]; [now left | discriminate H]).
      + assert (Hk : In k (Model.json_members
                             (if (f =? "__proto__")%string then json
                              else
                                match obj_get instance f with
                                | Some v =>
                                    Model.mkJsonForm
                                      (obj_set (Model.json_values json) f v)
                                      (Model.json_members json)
                                | None =>
                                    if inherits Model.instance_chain f
                                    then Model.mkJsonForm (Model.json_values json)
                                           (Model.add_member f (Model.json_members json))
                                    else json
                                end))
                     <-> In k (Model.json_members json)).
        { destruct (f =? "__proto__")%string; [tauto |].
          destruct (obj_get instance f) as [v|]; [cbn [Model.json_members]; tauto |].
          destruct (inherits Model.instance_chain f); [| tauto].
          cbn [Model.json_members]. rewrite in_add_member. tauto. }
        rewrite Hk. tauto. }
  rewrite H. cbn [Model.json_members]. simpl In. tauto.
Qed.

(** X26.  The JSON form of an instance holds, with their values, exactly
    the declared fields the instance has a value for, a field named
    [__proto__] apart, which never gets an entry.  A declared field
    without a value is in the JSON form all the same when it bears the
    name of a member the instance inherits ([constructor], [save],
    [delete], [toJSON], [toString], ...): it then holds that member.  For
    a schema that does not declare [id] the JSON form never has an id,
    whatever the instance holds: [save()] then always builds an insert
    (never an update by id), and the instance method [delete()] always
    throws. *)
Theorem json_form_and_save (fields : list (string * FieldDef)) (table : string)
    (parse : Model.JsonForm -> result (list (string * value)))
    (instance : list (string * value)) :
  (forall k,
      obj_get (Model.json_values (Model.toJSON fields instance)) k
      = if declares fields k && negb (k =? "__proto__")%string
        then obj_get instance k
        else None)
  /\ (forall k,
        In k (Model.json_members (Model.toJSON fields instance))
        <-> (declares fields k = true /\ k <> "__proto__"%string
             /\ obj_get instance k = None /\ inherits Model.instance_chain k = true))
  /\ (declares fields "id" = false ->
      Model.saveQuery fields table parse instance
      = match parse (Model.toJSON fields instance) with
        | Ok validated =>
            Ok (mkQuery q_insert table None None None None (Some validated)
                  None None None None None)
        | Throw e => Throw e
        end
      /\ Model.deleteInstance fields table instance
         = inl "Cannot delete model without id"%string).
Proof.
  split; [intros k; apply toJSON_lookup |].
  split; [intros k; apply toJSON_members |].
  intros Hid. pose proof (toJSON_lookup fields instance "id") as Hl.
  rewrite Hid in Hl. cbn [andb] in Hl.
  unfold Model.saveQuery, Model.deleteInstance. cbv zeta. rewrite Hl.
  split; [| reflexivity].
  destruct (parse (Model.toJSON fields instance)); reflexivity.
Qed.

Lemma json_form_and_save_witness :
  Model.saveQuery (schema_fields user_model) "users"
    (fun json => Ok (Model.json_values json))
    [("id", VNum 7); ("name", VStr "Bob"); ("email", VStr "bob@example.com");
     ("age", VNum 30); ("active", VBool true)]%string
  = Ok (mkQuery q_insert "users" None None None None
          (Some [("name", VStr "Bob"); ("email", VStr "bob@example.com");
                 ("age", VNum 30); ("active", VBool true)]%string)
          None None None None None).
Proof.
  rewrite (proj1 (proj2 (proj2 (@json_form_and_save (schema_fields user_model) "users"
                                  (fun json => Ok (Model.json_values json))
                                  [("id", VNum 7); ("name", VStr "Bob");
                                   ("email", VStr "bob@example.com");
                                   ("age", VNum 30); ("active", VBool true)]%string))
                    eq_refl)).
  reflexivity.
Defined.

(** X27.  The instance method [delete()] builds a query exactly when the
    schema declares [id] and the instance holds a truthy id; the query is
    then the delete with the single condition [id = that id].  An id of 0,
    the empty string, false or null makes it throw like a missing id. *)
Theorem instance_delete (fields : list (string * FieldDef)) (table : string)
    (instance : list (string * value)) :
  (forall id,
      declares fields "id" = true ->
      obj_get instance "id" = Some id ->
      Model.falsy id = false ->
      Model.deleteInstance fields table instance
      = inr (mkQuery q_delete table (Some [mkCondition "id" op_eq id]) None None None
               None None None None None None))
  /\ (forall q,
        Model.deleteInstance fields table instance = inr q ->
        declares fields "id" = true
        /\ exists id, obj_get instance "id" = Some id /\ Model.falsy id = false)
  /\ (forall id,
        In id [VNum 0; VStr EmptyString; VBool false; VNull] ->
        obj_get instance "id" = Some id ->
        Model.deleteInstance fields table instance
        = inl "Cannot delete model without id"%string).
Proof.
  pose proof (toJSON_lookup fields instance "id") as Hl.
  cbn [String.eqb Ascii.eqb Bool.eqb negb] in Hl. rewrite andb_true_r in Hl.
  unfold Model.deleteInstance. cbv zeta. rewrite Hl. split; [| split].
  - intros id Hd Hi Hf. rewrite Hd, Hi, Hf. reflexivity.
  - intros q. destruct (declares fields "id"); [| discriminate].
    destruct (obj_get instance "id") as [id|]; [| discriminate].
    destruct (Model.falsy id) eqn:Hf; [discriminate |].
    intros _. split; [reflexivity | eauto].
  - intros id Hin Hi. rewrite Hi.
    destruct (declares fields "id"); [| reflexivity].
    simpl in Hin. destruct Hin as [<- | [<- | [<- | [<- | []]]]]; reflexivity.
Qed.

Lemma instance_delete_witness :
  Model.deleteInstance [("id", FieldType "number"); ("name", FieldType "string")]%string
    "users" [("id", VNum 0); ("name", VStr "Bob")]%string
  = inl "Cannot delete model without id"%string.
Proof.
  apply (proj2 (proj2 (instance_delete
                         [("id", FieldType "number"); ("name", FieldType "string")]%string
                         "users" [("id", VNum 0); ("name", VStr "Bob")]%string))
           (VNum 0)).
  - left. reflexivity.
  - reflexivity.
Defined.
